(** * Entity-span annotation and label conversion of the KLUE relation-extraction
      pipeline: a shallow embedding of [add_token_ver/load_data.py] and of
      [label_to_num] from [models/dayeong/train.py], with the properties of the
      design document checked against it.

    Python values are modelled as follows.
    - [str] is [list ascii]; a character stands for the code point of the same
      number (U+0000 .. U+00FF).  Slicing, [split], [strip] and [int] below are
      Python's, restricted to that range.
    - Python integers are [Z]; [int] converts decimal strings of at most 4300
      digits, the default limit of the interpreter, and integers handed to
      the tensor library must fit in 64 bits.
    - A raised exception is [Raise e]; a normal return is [Ok v].
    - The function-local offset variables of [load_data] ([sub_start] ...) live
      in a record of [option Z]: [None] is an unbound local. *)

From Stdlib Require Import ZArith Ascii String List Lia Bool.
From Stdlib Require Import DecimalString DecimalPos DecimalZ.
From stdpp Require Import base list strings gmap.
Import ListNotations.

Local Open Scope Z_scope.

(** ** Exceptions and results *)

(** The exception classes met in the code modelled: those Python raises by
    itself, and [ExternalError] for whatever a method of the tokenizer or of
    the tensor library may raise. *)
Inductive exn : Type :=
| IndexError
| ValueError
| UnboundLocalError
| KeyError (key : string)
| ExternalError (what : string).

Inductive result (A : Type) : Type :=
| Ok (a : A)
| Raise (e : exn).
Arguments Ok {A} a.
Arguments Raise {A} e.

Definition bind {A B} (r : result A) (k : A -> result B) : result B :=
  match r with
  | Ok a => k a
  | Raise e => Raise e
  end.

Notation "x <- r ;; k" := (bind r (fun x => k))
  (at level 100, r at next level, right associativity).

(** ** Python [str] primitives *)

Module Py.

Definition str := list ascii.

Definition lit (s : string) : str := list_ascii_of_string s.

Definition len {A} (s : list A) : Z := Z.of_nat (length s).

(** Index normalisation of a slice bound: negative bounds count from the end,
    then the bound is clamped to [0, len]. *)
Definition clamp (n i : Z) : Z :=
  let j := if i <? 0 then i + n else i in
  if j <? 0 then 0 else if n <? j then n else j.

(** [s[lo:hi]], a bound left out being [None]. *)
Definition slice {A} (s : list A) (lo hi : option Z) : list A :=
  let n := len s in
  let l := match lo with Some i => clamp n i | None => 0 end in
  let h := match hi with Some i => clamp n i | None => n end in
  take (Z.to_nat (h - l)) (drop (Z.to_nat l) s).

(** [s[i:j]], [s[i:]] and [s[:j]]. *)
Definition sub {A} (s : list A) (i j : Z) : list A := slice s (Some i) (Some j).
Definition from {A} (s : list A) (i : Z) : list A := slice s (Some i) None.
Definition upto {A} (s : list A) (j : Z) : list A := slice s None (Some j).

(** [l[i]] on a list, negative indices counting from the end. *)
Definition index {A} (l : list A) (i : Z) : result A :=
  let j := if i <? 0 then i + len l else i in
  if j <? 0 then Raise IndexError
  else match nth_error l (Z.to_nat j) with
       | Some a => Ok a
       | None => Raise IndexError
       end.

Definition eqb_str (a b : str) : bool := bool_decide (a = b).

(** [s.split(sep)] for a one-character separator. *)
Fixpoint split (sep : ascii) (s : str) : list str :=
  match s with
  | [] => [[]]
  | c :: s' =>
      if Ascii.eqb c sep then [] :: split sep s'
      else match split sep s' with
           | h :: t => (c :: h) :: t
           | [] => [[c]]
           end
  end.

(** Whitespace in the sense of [str.isspace], for code points below 256. *)
Definition isspace (c : ascii) : bool :=
  let n := nat_of_ascii c in
  ((9 <=? n) && (n <=? 13) || (28 <=? n) && (n <=? 32)
   || (n =? 133) || (n =? 160))%nat.

Fixpoint lstrip (s : str) : str :=
  match s with
  | c :: s' => if isspace c then lstrip s' else s
  | [] => []
  end.

Definition rstrip (s : str) : str := rev (lstrip (rev s)).

Definition strip (s : str) : str := rstrip (lstrip s).

Definition digit (c : ascii) : option Z :=
  let n := nat_of_ascii c in
  if ((48 <=? n) && (n <=? 57))%nat then Some (Z.of_nat n - 48) else None.

(** Decimal digits with single underscores between digits; [sep] tells that the
    previous character was an underscore. *)
Fixpoint digits (acc : Z) (sep : bool) (s : str) : option Z :=
  match s with
  | [] => if sep then None else Some acc
  | c :: s' =>
      match digit c with
      | Some d => digits (10 * acc + d) false s'
      | None =>
          if Ascii.eqb c "_" then
            if sep then None else digits acc true s'
          else None
      end
  end.

Definition unsigned (s : str) : option Z :=
  match s with
  | c :: s' => match digit c with
               | Some d => digits d false s'
               | None => None
               end
  | [] => None
  end.

(** [sys.int_info.default_max_str_digits]: the largest number of digits that
    [int] converts from a decimal string. *)
Definition max_str_digits : Z := 4300.

Definition is_digit (c : ascii) : bool :=
  match digit c with
  | Some _ => true
  | None => false
  end.

(** [int(s)] in base ten.  A numeral of more than [max_str_digits] digits,
    sign and underscores not counted, is refused like text that is no
    numeral. *)
Definition int (s : str) : result Z :=
  let t := strip s in
  let r := match t with
           | c :: t' =>
               if Ascii.eqb c "-" then Z.opp <$> unsigned t'
               else if Ascii.eqb c "+" then unsigned t'
               else unsigned t
           | [] => None
           end in
  match r with
  | Some n =>
      if max_str_digits <? len (List.filter is_digit t) then Raise ValueError
      else Ok n
  | None => Raise ValueError
  end.

(** [s.replace(m, '')]: one pass from the left over occurrences that do not
    overlap.  [skip] counts the characters of a matched occurrence still to be
    dropped. *)
Fixpoint replace_go (m : str) (skip : nat) (s : str) : str :=
  match s with
  | [] => []
  | c :: s' =>
      match skip with
      | S k => replace_go m k s'
      | O => if eqb_str (take (length m) s) m
             then replace_go m (length m - 1) s'
             else c :: replace_go m 0 s'
      end
  end.

Definition remove (m s : str) : str :=
  match m with
  | [] => s
  | _ => replace_go m 0 s
  end.

End Py.

Import Py.

(** ** [load_data] *)

(** One row of the input table ([pd.read_csv(path)]). *)
Record raw_row : Type := {
  id : Z;
  sentence : str;
  subject_entity : str;
  object_entity : str;
  label : string
}.

(** One row of the returned data frame. *)
Record df_row : Type := {
  df_id : Z;
  df_sentence : str;
  df_subject_entity : str;
  df_object_entity : str;
  df_subject_type : str;
  df_object_type : str;
  df_label : string;
  df_subject_idx : Z * Z;
  df_object_idx : Z * Z
}.

(** The four offset variables, local to [load_data] and shared by all the
    iterations of its loop over the rows. *)
Record locals : Type := {
  sub_start : option Z;
  sub_end : option Z;
  obj_start : option Z;
  obj_end : option Z
}.

Definition unbound : locals :=
  {| sub_start := None; sub_end := None; obj_start := None; obj_end := None |}.

Definition set_sub_start (n : Z) (v : locals) : locals :=
  {| sub_start := Some n; sub_end := sub_end v;
     obj_start := obj_start v; obj_end := obj_end v |}.
Definition set_sub_end (n : Z) (v : locals) : locals :=
  {| sub_start := sub_start v; sub_end := Some n;
     obj_start := obj_start v; obj_end := obj_end v |}.
Definition set_obj_start (n : Z) (v : locals) : locals :=
  {| sub_start := sub_start v; sub_end := sub_end v;
     obj_start := Some n; obj_end := obj_end v |}.
Definition set_obj_end (n : Z) (v : locals) : locals :=
  {| sub_start := sub_start v; sub_end := sub_end v;
     obj_start := obj_start v; obj_end := Some n |}.

(** Reading a local variable. *)
Definition read (o : option Z) : result Z :=
  match o with
  | Some n => Ok n
  | None => Raise UnboundLocalError
  end.

(** A [for] loop threading a state, stopped by the first exception. *)
Fixpoint for_each {I S} (body : I -> S -> result S) (l : list I) (s : S)
  : result S :=
  match l with
  | [] => Ok s
  | i :: l' => s' <- body i s ;; for_each body l' s'
  end.

Definition range (n : Z) : list Z := map Z.of_nat (seq 0 (Z.to_nat n)).

(** [x[1:-1].split(':')[-1].split('\'')[-2]] *)
Definition entity_type (x : str) : result str :=
  t <- index (split ":" (sub x 1 (-1))) (-1) ;;
  index (split "'" t) (-2).

(** [int(x[k:].split(',')[0].strip())] *)
Definition int_field (x : str) (k : Z) : result Z :=
  t <- index (split "," (from x k)) 0 ;;
  int (strip t).

Definition at_start_idx (x : str) (idx_i : Z) : bool :=
  eqb_str (sub x idx_i (idx_i + 9)) (lit "start_idx").
Definition at_end_idx (x : str) (idx_i : Z) : bool :=
  eqb_str (sub x idx_i (idx_i + 7)) (lit "end_idx").

(** The body of the loop [for idx_i in range(len(x))]: four tests in the order
    of the source, each one assigning its variable when the key is found. *)
Definition scan_body (x y : str) (idx_i : Z) (v : locals) : result locals :=
  v <- (if at_start_idx x idx_i
        then n <- int_field x (idx_i + 12) ;; Ok (set_sub_start n v)
        else Ok v) ;;
  v <- (if at_end_idx x idx_i
        then n <- int_field x (idx_i + 10) ;; Ok (set_sub_end n v)
        else Ok v) ;;
  v <- (if at_start_idx y idx_i
        then n <- int_field y (idx_i + 12) ;; Ok (set_obj_start n v)
        else Ok v) ;;
  (if at_end_idx y idx_i
   then n <- int_field y (idx_i + 10) ;; Ok (set_obj_end n v)
   else Ok v).

Definition scan (x y : str) (v : locals) : result locals :=
  for_each (scan_body x y) (range (len x)) v.

(** The marker insertion: the [if]/[else] on the two start offsets, each branch
    rebinding [z] twice. *)
Definition mark (z : str) (sub_i obj_i : Z * Z) : str :=
  if sub_i.1 <? obj_i.1 then
    let z := upto z sub_i.1 ++ lit "[SUB]" ++ sub z sub_i.1 (sub_i.2 + 1)
             ++ lit "[/SUB]" ++ from z (sub_i.2 + 1) in
    upto z (obj_i.1 + 11) ++ lit "[OBJ]" ++ sub z (obj_i.1 + 11) (obj_i.2 + 12)
    ++ lit "[/OBJ]" ++ from z (obj_i.2 + 12)
  else
    let z := upto z obj_i.1 ++ lit "[OBJ]" ++ sub z obj_i.1 (obj_i.2 + 1)
             ++ lit "[/OBJ]" ++ from z (obj_i.2 + 1) in
    upto z (sub_i.1 + 11) ++ lit "[SUB]" ++ sub z (sub_i.1 + 11) (sub_i.2 + 12)
    ++ lit "[/SUB]" ++ from z (sub_i.2 + 12).

(** The body of the loop over the rows, with the row appended to the output
    columns as its result. *)
Definition row_body (r : raw_row) (v : locals) : result (locals * df_row) :=
  let x := subject_entity r in
  let y := object_entity r in
  let z := sentence r in
  sub_typ <- entity_type x ;;
  obj_typ <- entity_type y ;;
  v <- scan x y v ;;
  a <- read (sub_start v) ;;
  b <- read (sub_end v) ;;
  c <- read (obj_start v) ;;
  d <- read (obj_end v) ;;
  let sub_i := (a, b) in
  let obj_i := (c, d) in
  Ok (v, {| df_id := id r;
            df_sentence := mark z sub_i obj_i;
            df_subject_entity := sub z sub_i.1 (sub_i.2 + 1);
            df_object_entity := sub z obj_i.1 (obj_i.2 + 1);
            df_subject_type := sub_typ;
            df_object_type := obj_typ;
            df_label := label r;
            df_subject_idx := sub_i;
            df_object_idx := obj_i |}).

Definition append_row (r : raw_row) (s : locals * list df_row)
  : result (locals * list df_row) :=
  o <- row_body r s.1 ;; Ok (o.1, s.2 ++ [o.2]).

(** [load_data], from the table read to the data frame returned; [load_from]
    starts with the locals as an earlier part of the table left them. *)
Definition load_from (v : locals) (data : list raw_row) : result (list df_row) :=
  s <- for_each append_row data (v, []) ;; Ok s.2.

Definition load_data (data : list raw_row) : result (list df_row) :=
  load_from unbound data.

(** The scenario of the design document. *)
Definition kim : raw_row :=
  {| id := 0;
     sentence := lit "Kim works at Acme";
     subject_entity :=
       lit "{'word': 'Kim', 'start_idx': 0, 'end_idx': 2, 'type': 'PER'}";
     object_entity :=
       lit "{'word': 'Acme', 'start_idx': 13, 'end_idx': 16, 'type': 'ORG'}";
     label := "per:employee_of" |}.

Definition kim_row : df_row :=
  {| df_id := 0;
     df_sentence := lit "[SUB]Kim[/SUB] works at [OBJ]Acme[/OBJ]";
     df_subject_entity := lit "Kim";
     df_object_entity := lit "Acme";
     df_subject_type := lit "PER";
     df_object_type := lit "ORG";
     df_label := "per:employee_of";
     df_subject_idx := (0, 2);
     df_object_idx := (13, 16) |}.

(** ** The marker insertion on disjoint spans *)

Definition valid_span (z : str) (i : Z * Z) : Prop :=
  0 <= i.1 /\ i.1 <= i.2 /\ i.2 < len z.

Definition disjoint (i j : Z * Z) : Prop := i.2 < j.1 \/ j.2 < i.1.

Definition intersect (i j : Z * Z) : Prop := i.1 <= j.2 /\ j.1 <= i.2.

(** [marked] is [z] with [open1]/[close1] put around the span [first], whose
    text is [t1], and [open2]/[close2] around the later span [second], whose
    text is [t2].  The first pair sits at the offsets of [first] in [z]; the
    second pair was put at [second.1 + 11] and [second.2 + 1 + 11] of the
    string that carries the first pair already. *)
Definition inserted (z marked open1 close1 open2 close2 : str)
    (first second : Z * Z) (t1 t2 : str) : Prop :=
  exists u m w : str,
    z = u ++ t1 ++ m ++ t2 ++ w /\
    marked = u ++ open1 ++ t1 ++ close1 ++ m ++ open2 ++ t2 ++ close2 ++ w /\
    len u = first.1 /\
    len (u ++ t1) = first.2 + 1 /\
    len (u ++ open1 ++ t1 ++ close1 ++ m) = second.1 + 11 /\
    len (u ++ open1 ++ t1 ++ close1 ++ m ++ t2) = second.2 + 1 + 11.

(** ** Deleting the markers again *)

Inductive marker : Type := SUB | ESUB | OBJ | EOBJ.

Global Instance marker_eq_dec : EqDecision marker.
Proof. solve_decision. Defined.

Definition tok (k : marker) : str :=
  match k with
  | SUB => lit "[SUB]"
  | ESUB => lit "[/SUB]"
  | OBJ => lit "[OBJ]"
  | EOBJ => lit "[/OBJ]"
  end.

(** [m in s] *)
Fixpoint contains (m s : str) : bool :=
  eqb_str (take (length m) s) m
  || match s with
     | [] => false
     | _ :: s' => contains m s'
     end.

(** The sentence holds none of the four marker strings. *)
Definition marker_free (z : str) : Prop := forall k, contains (tok k) z = false.

(** The marker strings deleted one after the other, in the order of [ks]:
    [s.replace(tok k1, '').replace(tok k2, '')...]. *)
Definition strip_markers_in (ks : list marker) (s : str) : str :=
  fold_left (fun s k => remove (tok k) s) ks s.

(** [s.replace('[SUB]', '').replace('[/SUB]', '').replace('[OBJ]', '')
      .replace('[/OBJ]', '')] *)
Definition strip_markers (s : str) : str :=
  strip_markers_in [SUB; ESUB; OBJ; EOBJ] s.

(** A marked string as pieces of text, each followed by a marker, and a last
    piece of text. *)
Definition pieces : Type := list (str * marker) * str.

Fixpoint flat_pieces (l : list (str * marker)) (q : str) : str :=
  match l with
  | [] => q
  | (p, k) :: l' => p ++ tok k ++ flat_pieces l' q
  end.

Definition flat (s : pieces) : str := flat_pieces s.1 s.2.

Definition text (s : pieces) : str := concat (map fst s.1) ++ s.2.

(** [glue p s] puts the text [p] in front of the first piece of [s]. *)
Definition glue (p : str) (s : pieces) : pieces :=
  match s.1 with
  | [] => ([], p ++ s.2)
  | (p1, k1) :: l => ((p ++ p1, k1) :: l, s.2)
  end.

Fixpoint unmark_pieces (k : marker) (l : list (str * marker)) (q : str) : pieces :=
  match l with
  | [] => ([], q)
  | (p, k') :: l' =>
      let s := unmark_pieces k l' q in
      if decide (k = k') then glue p s else ((p, k') :: s.1, s.2)
  end.

Definition unmark (k : marker) (s : pieces) : pieces := unmark_pieces k s.1 s.2.

(** The markers of a marked string, from the left. *)
Definition marks (s : pieces) : list marker := map snd s.1.

(** One pass for each marker of [ks], in this order. *)
Definition unmark_all (ks : list marker) (s : pieces) : pieces :=
  fold_left (fun s k => unmark k s) ks s.

(** A sentence that holds the text of a marker itself. *)
Definition literal_marker : raw_row :=
  {| id := 1;
     sentence := lit "a[SUB]b";
     subject_entity :=
       lit "{'word': 'a', 'start_idx': 0, 'end_idx': 0, 'type': 'PER'}";
     object_entity :=
       lit "{'word': 'b', 'start_idx': 6, 'end_idx': 6, 'type': 'ORG'}";
     label := "no_relation" |}.

Definition literal_marker_row : df_row :=
  {| df_id := 1;
     df_sentence := lit "[SUB]a[/SUB][SUB][OBJ]b[/OBJ]";
     df_subject_entity := lit "a";
     df_object_entity := lit "b";
     df_subject_type := lit "PER";
     df_object_type := lit "ORG";
     df_label := "no_relation";
     df_subject_idx := (0, 0);
     df_object_idx := (6, 6) |}.

(** ** The scan for the offsets *)

Definition fails {A} (r : result A) : bool :=
  match r with
  | Ok _ => false
  | Raise _ => true
  end.

(** At position [idx_i] a key is found whose value [int] does not accept. *)
Definition bad_at (x y : str) (idx_i : Z) : bool :=
  at_start_idx x idx_i && fails (int_field x (idx_i + 12))
  || at_end_idx x idx_i && fails (int_field x (idx_i + 10))
  || at_start_idx y idx_i && fails (int_field y (idx_i + 12))
  || at_end_idx y idx_i && fails (int_field y (idx_i + 10)).

(** No position that the scan of the row visits is bad. *)
Definition clean (x y : str) : bool :=
  forallb (fun i => negb (bad_at x y i)) (range (len x)).

(** The key tested by [key] is found in [y] at none of the positions below
    [n]. *)
Definition missing (key : str -> Z -> bool) (y : str) (n : Z) : bool :=
  forallb (fun i => negb (key y i)) (range n).

Definition all_bound (v : locals) : Prop :=
  is_Some (sub_start v) /\ is_Some (sub_end v) /\
  is_Some (obj_start v) /\ is_Some (obj_end v).

(** What one round of the scan leaves in each variable. *)
Definition after (hit : bool) (r : result Z) (old : option Z) : option Z :=
  if hit then match r with Ok n => Some n | Raise _ => None end else old.

(** ** Rows used as concrete inputs *)

(** A second row whose subject field has no [end_idx]. *)
Definition anna : raw_row :=
  {| id := 1;
     sentence := lit "Anna joined Initech";
     subject_entity := lit "{'word': 'Anna', 'start_idx': 0, 'type': 'PER'}";
     object_entity :=
       lit "{'word': 'Initech', 'start_idx': 12, 'end_idx': 18, 'type': 'ORG'}";
     label := "per:employee_of" |}.

Definition anna_row : df_row :=
  {| df_id := 1;
     df_sentence := lit "[SUB]Ann[/SUB]a joined [OBJ]Initech[/OBJ]";
     df_subject_entity := lit "Ann";
     df_object_entity := lit "Initech";
     df_subject_type := lit "PER";
     df_object_type := lit "ORG";
     df_label := "per:employee_of";
     df_subject_idx := (0, 2);
     df_object_idx := (12, 18) |}.

(** A row whose subject offset is not a number. *)
Definition one : raw_row :=
  {| id := 4;
     sentence := lit "abcdef";
     subject_entity :=
       lit "{'word': 'bcd', 'start_idx': one, 'end_idx': 3, 'type': 'PER'}";
     object_entity :=
       lit "{'word': 'cde', 'start_idx': 2, 'end_idx': 4, 'type': 'ORG'}";
     label := "no_relation" |}.

(** A row whose object field is longer than its subject field, with both keys
    of the object field behind the length of the subject field. *)
Definition bo : raw_row :=
  {| id := 2;
     sentence :=
       lit "Bo joined International Business Machines Corporation of Armonk";
     subject_entity :=
       lit "{'word': 'Bo', 'start_idx': 0, 'end_idx': 1, 'type': 'PER'}";
     object_entity :=
       lit ("{'word': 'International Business Machines Corporation of Armonk'," ++
            " 'start_idx': 10, 'end_idx': 62, 'type': 'ORG'}");
     label := "per:employee_of" |}.

Definition bo_row : df_row :=
  {| df_id := 2;
     df_sentence :=
       lit ("[SUB]Bo[/SUB] joined Int[OBJ]erna[/OBJ]tional Business Machines" ++
            " Corporation of Armonk");
     df_subject_entity := lit "Bo";
     df_object_entity := lit "erna";
     df_subject_type := lit "PER";
     df_object_type := lit "ORG";
     df_label := "per:employee_of";
     df_subject_idx := (0, 1);
     df_object_idx := (13, 16) |}.

(** A row whose object stands at the characters 1 to 3, and the row [bo] as
    it is loaded after that row. *)
Definition ibm : raw_row :=
  {| id := 7;
     sentence := lit "(IBM) hired Ann";
     subject_entity :=
       lit "{'word': 'Ann', 'start_idx': 12, 'end_idx': 14, 'type': 'PER'}";
     object_entity :=
       lit "{'word': 'IBM', 'start_idx': 1, 'end_idx': 3, 'type': 'ORG'}";
     label := "org:members" |}.

Definition ibm_row : df_row :=
  {| df_id := 7;
     df_sentence := lit "([OBJ]IBM[/OBJ]) hired [SUB]Ann[/SUB]";
     df_subject_entity := lit "Ann";
     df_object_entity := lit "IBM";
     df_subject_type := lit "PER";
     df_object_type := lit "ORG";
     df_label := "org:members";
     df_subject_idx := (12, 14);
     df_object_idx := (1, 3) |}.

Definition bo_after_ibm : df_row :=
  {| df_id := 2;
     df_sentence :=
       lit ("[SUB]Bo[/SUB[OBJ]] j[/OBJ]oined International Business Machines" ++
            " Corporation of Armonk");
     df_subject_entity := lit "Bo";
     df_object_entity := lit "o j";
     df_subject_type := lit "PER";
     df_object_type := lit "ORG";
     df_label := "per:employee_of";
     df_subject_idx := (0, 1);
     df_object_idx := (1, 3) |}.

(** A row whose spans share the characters 2 and 3. *)
Definition overlap : raw_row :=
  {| id := 3;
     sentence := lit "abcdef";
     subject_entity :=
       lit "{'word': 'bcd', 'start_idx': 1, 'end_idx': 3, 'type': 'PER'}";
     object_entity :=
       lit "{'word': 'cde', 'start_idx': 2, 'end_idx': 4, 'type': 'ORG'}";
     label := "no_relation" |}.

Definition overlap_row : df_row :=
  {| df_id := 3;
     df_sentence := lit "a[SUB]bcd[/SU[OBJ]B]e[/OBJ]f";
     df_subject_entity := lit "bcd";
     df_object_entity := lit "cde";
     df_subject_type := lit "PER";
     df_object_type := lit "ORG";
     df_label := "no_relation";
     df_subject_idx := (1, 3);
     df_object_idx := (2, 4) |}.

(** The locals as the row [kim] leaves them. *)
Definition after_kim : locals :=
  {| sub_start := Some 0; sub_end := Some 2;
     obj_start := Some 13; obj_end := Some 16 |}.

(** ** [tokenized_dataset] *)

(** The tokenizer of the transformers library, as far as [tokenized_dataset]
    uses it.  Its methods are not code of this repository: they are taken as
    they come, any of them free to raise.  [add_special_tokens] changes the
    tokenizer; [call] is the batch encoding
    [tokenizer(sentences, return_tensors="pt", padding=True, truncation=True,
    max_length=256, add_special_tokens=True, return_token_type_ids=False)]. *)
Class Tokenizer (T : Type) : Type := {
  batch : Type;
  add_special_tokens : list (string * list str) -> T -> result T;
  call : T -> list str -> result batch;
  encode : T -> str -> result (list Z);
  decode : T -> list Z -> result str
}.

Definition special_tokens_dict : list (string * list str) :=
  [("additional_special_tokens"%string,
    [lit "[SUB]"; lit "[/SUB]"; lit "[OBJ]"; lit "[/OBJ]"])].

(** One round of the loop [for i in range(10)] that prints decoded sentences;
    [printed] collects what [print] wrote. *)
Definition check_decoded `{Tokenizer T} (tokenizer : T) (sentences : list str)
    (i : Z) (printed : list str) : result (list str) :=
  s <- index sentences i ;;
  text_enc <- encode tokenizer s ;;
  text_dec <- decode tokenizer text_enc ;;
  Ok (printed ++ [text_dec]).

(** [tokenized_dataset]: the tokenizer as the call leaves it, the lines printed
    and the value returned. *)
Definition tokenized_dataset `{Tokenizer T} (dataset : list df_row) (tokenizer : T)
  : result (T * list str * batch) :=
  tokenizer <- add_special_tokens special_tokens_dict tokenizer ;;
  tokenized_sentences <- call tokenizer (map df_sentence dataset) ;;
  printed <- for_each (check_decoded tokenizer (map df_sentence dataset))
               (range 10) [] ;;
  Ok (tokenizer, printed, tokenized_sentences).

(** A tokenizer none of whose methods ever raises: one token per character. *)
Definition code (c : ascii) : Z := Z.of_nat (nat_of_ascii c).
Definition uncode (n : Z) : ascii := ascii_of_nat (Z.to_nat n).

Global Instance char_tokenizer : Tokenizer unit := {|
  batch := list (list Z);
  add_special_tokens := fun _ t => Ok t;
  call := fun _ l => Ok (map (map code) l);
  encode := fun _ s => Ok (map code s);
  decode := fun _ e => Ok (map uncode e)
|}.

(** ** [label_to_num] *)

(** [label_to_num], the unpickled table being [dict_label_to_num]. *)
Definition label_to_num (dict_label_to_num : gmap string Z) (label : list string)
  : result (list Z) :=
  for_each (fun v num_label =>
              match dict_label_to_num !! v with
              | Some n => Ok (num_label ++ [n])
              | None => Raise (KeyError v)
              end) label [].

(** The numbers of the labels, or the first label without one. *)
Fixpoint lookup_all (dict_label_to_num : gmap string Z) (label : list string)
  : result (list Z) :=
  match label with
  | [] => Ok []
  | v :: label' =>
      match dict_label_to_num !! v with
      | Some n => ns <- lookup_all dict_label_to_num label' ;; Ok (n :: ns)
      | None => Raise (KeyError v)
      end
  end.

Definition two_labels : gmap string Z :=
  <["no_relation"%string := 0]> (<["per:employee_of"%string := 6]> ∅).

(** ** Definitions for the further properties *)

(** The columns of one row of the result, read off the row of the table. *)
Definition annotates (r : raw_row) (o : df_row) : Prop :=
  df_id o = id r /\ df_label o = label r /\
  df_sentence o = mark (sentence r) (df_subject_idx o) (df_object_idx o) /\
  df_subject_entity o
  = sub (sentence r) (df_subject_idx o).1 ((df_subject_idx o).2 + 1) /\
  df_object_entity o
  = sub (sentence r) (df_object_idx o).1 ((df_object_idx o).2 + 1) /\
  entity_type (subject_entity r) = Ok (df_subject_type o) /\
  entity_type (object_entity r) = Ok (df_object_type o).

(** The value a variable holds after the rounds of [l], from the tests [hit]
    of its key and the values [val] read at the positions of [l]. *)
Definition scanned (hit : Z -> bool) (val : Z -> result Z) (l : list Z)
    (old : option Z) : option Z :=
  fold_left (fun o i => after (hit i) (val i) o) l old.

(** Each of the four keys is found at a position the scan of the row visits. *)
Definition complete (x y : str) : bool :=
  negb (missing at_start_idx x (len x)) && negb (missing at_end_idx x (len x))
  && negb (missing at_start_idx y (len x)) && negb (missing at_end_idx y (len x)).

(** Both type tags can be taken out of the fields. *)
Definition tags_found (x y : str) : bool :=
  negb (fails (entity_type x)) && negb (fails (entity_type y)).

Definition is_unbound (o : option Z) : bool :=
  match o with
  | None => true
  | Some _ => false
  end.

(** Some variable has no value yet and its key is found at no position the
    scan of the row visits. *)
Definition lacking (v : locals) (x y : str) : bool :=
  is_unbound (sub_start v) && missing at_start_idx x (len x)
  || is_unbound (sub_end v) && missing at_end_idx x (len x)
  || is_unbound (obj_start v) && missing at_start_idx y (len x)
  || is_unbound (obj_end v) && missing at_end_idx y (len x).

(** [i] is the last of the positions below [n] at which [key] is found in
    [s]. *)
Definition last_found (key : str -> Z -> bool) (s : str) (n i : Z) : Prop :=
  0 <= i < n /\ key s i = true /\ forall j, i < j < n -> key s j = false.

(** A row whose subject field carries [start_idx] twice. *)
Definition twice : raw_row :=
  {| id := 6;
     sentence := lit "abcdefghij";
     subject_entity :=
       lit "{'word': 'b', 'start_idx': 1, 'start_idx': 7, 'end_idx': 8, 'type': 'PER'}";
     object_entity :=
       lit "{'word': 'd', 'start_idx': 3, 'end_idx': 3, 'type': 'ORG'}";
     label := "no_relation" |}.

(** ** The use of [load_data] and [label_to_num] in [train] *)

(** [all_dataset = load_data(path)] followed by
    [all_label = label_to_num(all_dataset['label'].values)]. *)
Definition all_label (dict_label_to_num : gmap string Z) (data : list raw_row)
  : result (list Z) :=
  all_dataset <- load_data data ;;
  label_to_num dict_label_to_num (map df_label all_dataset).

(** [frame.iloc[idx]] for a list of positions: the rows at these positions, in
    the order of [idx]; a position outside the frame raises [IndexError]. *)
Definition iloc {A} (frame : list A) (idx : list Z) : result (list A) :=
  for_each (fun i rows => a <- index frame i ;; Ok (rows ++ [a])) idx [].

(** The labels of one fold: [train_dataset = all_dataset.iloc[train_idx]] and
    [train_label = label_to_num(train_dataset['label'].values)]. *)
Definition fold_label (dict_label_to_num : gmap string Z)
    (all_dataset : list df_row) (train_idx : list Z) : result (list Z) :=
  train_dataset <- iloc all_dataset train_idx ;;
  label_to_num dict_label_to_num (map df_label train_dataset).

(** [p] is what the tokenizer decodes from its encoding of [s]. *)
Definition decodes `{Tokenizer T} (tokenizer : T) (s p : str) : Prop :=
  exists text_enc, encode tokenizer s = Ok text_enc
                   /\ decode tokenizer text_enc = Ok p.

(** ** [RE_Dataset] *)

(** A Python dict as the list of its items in the order of insertion. *)
Definition dict (V : Type) : Type := list (string * V).

(** [d.get(k)] *)
Fixpoint dict_get {V} (k : string) (d : dict V) : option V :=
  match d with
  | [] => None
  | (k', v) :: d' => if decide (k = k') then Some v else dict_get k d'
  end.

(** [d[k] = v]: the value of a key already there is replaced in place, a new
    key goes to the end. *)
Fixpoint dict_set {V} (k : string) (v : V) (d : dict V) : dict V :=
  match d with
  | [] => [(k, v)]
  | (k', v') :: d' =>
      if decide (k = k') then (k, v) :: d' else (k', v') :: dict_set k v d'
  end.

(** The values of an item: [val[idx]] for a tensor [val] of the pair dataset
    (a tensor being the list of its rows), or the label made a tensor. *)
Inductive cell (A : Type) : Type :=
| Row (a : A)
| Label (n : Z).
Arguments Row {A} a.
Arguments Label {A} n.

Record RE_Dataset (A : Type) : Type := {
  pair_dataset : dict (list A);
  labels : list Z
}.
Arguments pair_dataset {A} _.
Arguments labels {A} _.

(** The tensor library takes a Python integer as a signed integer of 64 bits,
    and refuses one that does not fit with its overflow error. *)
Definition fits_int64 (n : Z) : bool := (- 2 ^ 63 <=? n) && (n <? 2 ^ 63).

Definition overflow : exn := ExternalError "Overflow when unpacking long".

Definition unpack_long (n : Z) : result Z :=
  if fits_int64 n then Ok n else Raise overflow.

(** [val[idx]] for a tensor [val] and a Python integer [idx]: the index is
    unpacked, then looked up among the rows. *)
Definition tensor_index {A} (val : list A) (idx : Z) : result A :=
  i <- unpack_long idx ;; index val i.

(** [__getitem__]: the dict comprehension over [pair_dataset.items()], then
    [item['labels'] = torch.tensor(self.labels[idx])], [self.labels] being a
    Python list. *)
Definition getitem {A} (self : RE_Dataset A) (idx : Z) : result (dict (cell A)) :=
  item <- for_each (fun kv item =>
                      c <- tensor_index kv.2 idx ;;
                      Ok (dict_set kv.1 (Row c) item))
            (pair_dataset self) [] ;;
  l <- index (labels self) idx ;;
  n <- unpack_long l ;;
  Ok (dict_set "labels"%string (Label n) item).

(** [__len__] *)
Definition dataset_len {A} (self : RE_Dataset A) : Z := len (labels self).

(** A data set whose [input_ids] has one row less than there are labels. *)
Definition short_column : RE_Dataset (list Z) :=
  {| pair_dataset := [("input_ids"%string, [[0; 5; 2]]);
                      ("attention_mask"%string, [[1; 1; 1]; [1; 1; 0]])];
     labels := [6; 0] |}.

(** A data set whose label does not fit in 64 bits. *)
Definition wide_label : RE_Dataset (list Z) :=
  {| pair_dataset := [("input_ids"%string, [[0; 5; 2]])];
     labels := [2 ^ 63] |}.

(** ** Fields as the data set writes them *)

(** Python's [repr] of an integer: decimal digits, [-] in front of a negative
    number. *)
Definition repr_int (n : Z) : str := lit (NilZero.string_of_int (Z.to_int n)).

(** The number of digits of [n] written in decimal. *)
Definition decimal_digits (n : Z) : Z := len (repr_int (Z.abs n)).

(** [int] reads the decimal form of [n] back. *)
Definition readable (n : Z) : Prop := decimal_digits n <= max_str_digits.

(** A field in the format of the data set, Python's [repr] of the dict of an
    entity whose word and type need no escaping:
    [{'word': '<word>', 'start_idx': <a>, 'end_idx': <b>, 'type': '<type>'}]. *)
Definition entity_repr (word : str) (start_idx end_idx : Z) (type : str) : str :=
  lit "{'word': '" ++ word ++ lit "', 'start_idx': " ++ repr_int start_idx
  ++ lit ", 'end_idx': " ++ repr_int end_idx ++ lit ", 'type': '" ++ type
  ++ lit "'}".

(** A digit or the sign of a negative number. *)
Definition numchar (c : ascii) : bool :=
  match digit c with
  | Some _ => true
  | None => Ascii.eqb c "-"
  end.

(** [K] stands in [s] at position [i]. *)
Definition occ (K s : str) (i : nat) : Prop := take (length K) (drop i s) = K.

(** [q.join(segs)] for a one-character [q]. *)
Fixpoint join (q : ascii) (segs : list str) : str :=
  match segs with
  | [] => []
  | s :: rest =>
      match rest with
      | [] => s
      | _ => s ++ q :: join q rest
      end
  end.

(** The position at which the piece number [k] starts in [join q segs]. *)
Fixpoint offset (segs : list str) (k : nat) : nat :=
  match k, segs with
  | S k', s :: rest => length s + 1 + offset rest k'
  | _, _ => 0
  end.

(** The pieces of a field between its quotes. *)
Definition entity_pieces (word : str) (start_idx end_idx : Z) (type : str)
  : list str :=
  [lit "{"; lit "word"; lit ": "; word; lit ", "; lit "start_idx";
   lit ": " ++ repr_int start_idx ++ lit ", "; lit "end_idx";
   lit ": " ++ repr_int end_idx ++ lit ", "; lit "type"; lit ": "; type;
   lit "}"].

(** The text holds none of the two keys. *)
Definition key_free (s : str) : Prop :=
  contains (lit "start_idx") s = false /\ contains (lit "end_idx") s = false.

(** A type tag that needs no escaping and stops no split. *)
Definition plain_tag (t : str) : Prop :=
  key_free t /\ ~ In ":"%char t /\ ~ In "'"%char t.

(** The row is written in the format of the data set, with the offsets
    [(a, b)] and the type [ts] for its subject, [(c, d)] and [to] for its
    object; words and types hold no key, the offsets have no more digits than
    [int] converts, and the keys of the object field stand at positions below
    the length of the subject field. *)
Definition written (r : raw_row) (a b c d : Z) (ts to : str) : Prop :=
  exists ws wo : str,
    subject_entity r = entity_repr ws a b ts /\
    object_entity r = entity_repr wo c d to /\
    key_free ws /\ key_free wo /\ plain_tag ts /\ plain_tag to /\
    (readable a /\ readable b /\ readable c /\ readable d) /\
    29 + len wo + len (repr_int c) < len (subject_entity r).

(** The row of the data frame for a row of the table, from offsets and
    types. *)
Definition annotation (r : raw_row) (a b c d : Z) (ts to : str) : df_row :=
  {| df_id := id r;
     df_sentence := mark (sentence r) (a, b) (c, d);
     df_subject_entity := sub (sentence r) a (b + 1);
     df_object_entity := sub (sentence r) c (d + 1);
     df_subject_type := ts;
     df_object_type := to;
     df_label := label r;
     df_subject_idx := (a, b);
     df_object_idx := (c, d) |}.

(** The fields of the row carry the spans [(a, b)] for the subject and
    [(c, d)] for the object, in the format of the data set: words and types
    hold no key, the offsets have no more digits than [int] converts, and the
    keys of the object field stand at positions below the length of the
    subject field, the positions that the scan visits. *)
Definition spans_written (r : raw_row) (a b c d : Z) : Prop :=
  exists ws ts wo to : str,
    subject_entity r = entity_repr ws a b ts /\
    object_entity r = entity_repr wo c d to /\
    key_free ws /\ key_free ts /\ key_free wo /\ key_free to /\
    (readable a /\ readable b /\ readable c /\ readable d) /\
    29 + len wo + len (repr_int c) < len (subject_entity r).

(** The row [o] of the data frame records the spans [(a, b)] and [(c, d)],
    holds the two entity texts cut out of the sentence of [r] at these spans,
    and its sentence is the sentence of [r] with the markers of the span that
    starts first at that span's offsets and the markers of the other span at
    its start plus 11 and its end plus 1 plus 11, around the entity texts. *)
Definition wraps (r : raw_row) (a b c d : Z) (o : df_row) : Prop :=
  df_subject_idx o = (a, b) /\ df_object_idx o = (c, d) /\
  df_subject_entity o = sub (sentence r) a (b + 1) /\
  df_object_entity o = sub (sentence r) c (d + 1) /\
  if a <? c
  then inserted (sentence r) (df_sentence o)
         (lit "[SUB]") (lit "[/SUB]") (lit "[OBJ]") (lit "[/OBJ]")
         (a, b) (c, d) (df_subject_entity o) (df_object_entity o)
  else inserted (sentence r) (df_sentence o)
         (lit "[OBJ]") (lit "[/OBJ]") (lit "[SUB]") (lit "[/SUB]")
         (c, d) (a, b) (df_object_entity o) (df_subject_entity o).

(** Deleting the marker strings from the sentence of [o], in the order of the
    code or in any other, gives the sentence of [r]. *)
Definition strips_back (r : raw_row) (o : df_row) : Prop :=
  strip_markers (df_sentence o) = sentence r /\
  forall ks, (forall k, In k ks) ->
             strip_markers_in ks (df_sentence o) = sentence r.

(** A row whose subject is the word [end_idx]. *)
Definition keyword : raw_row :=
  {| id := 5;
     sentence := lit "end_idx is set by Acme";
     subject_entity :=
       lit "{'word': 'end_idx', 'start_idx': 0, 'end_idx': 6, 'type': 'POH'}";
     object_entity :=
       lit "{'word': 'Acme', 'start_idx': 18, 'end_idx': 21, 'type': 'ORG'}";
     label := "no_relation" |}.

(** ** The one-hot labels of [klue_re_auprc] *)

(** [np.eye(n)], its entries being 0 and 1. *)
Definition eye (n : nat) : list (list Z) :=
  map (fun i => map (fun j => if (i =? j)%nat then 1 else 0) (seq 0 n)) (seq 0 n).

(** [np.eye(30)[labels]] followed, for a class [c] of [range(30)], by
    [labels.take([c], axis=1).ravel()]: the column [c] of the one-hot rows.
    Indexing with an array of integers takes the rows at these positions, like
    [iloc]. *)
Definition targets_c (labels : list Z) (c : nat) : result (list Z) :=
  rows <- iloc (eye 30) labels ;;
  Ok (map (fun row => nth c row 0) rows).

(** * Properties *)

(** ** The Python primitives at work *)

Example slice_neg : sub (lit "abcdef") 1 (-1) = lit "bcde".
Proof. reflexivity. Qed.

Example split_ex : split "," (lit "a,,b") = [lit "a"; lit ""; lit "b"].
Proof. reflexivity. Qed.

Example int_ex : int (lit " -1_0 ") = Ok (-10) /\ int (lit "1__0") = Raise ValueError
                 /\ int (lit "") = Raise ValueError /\ int (lit "+07") = Ok 7.
Proof. repeat split; reflexivity. Qed.

Example remove_ex : remove (lit "[SUB]") (lit "a[SUB]b[S[SUB]UB]") = lit "ab[SUB]".
Proof. reflexivity. Qed.

Example entity_type_ex : entity_type (subject_entity kim) = Ok (lit "PER")
                         /\ entity_type (lit "{}") = Raise IndexError.
Proof. split; reflexivity. Qed.

(** ** Slices of a concatenation *)

Section Slices.
Context {A : Type}.
Implicit Types p q r s : list A.

Lemma len_app p q : len (p ++ q) = len p + len q.
Proof. unfold len. rewrite length_app. lia. Qed.

Lemma len_nonneg s : 0 <= len s.
Proof. unfold len. lia. Qed.

Lemma clamp_inside n i : 0 <= i <= n -> clamp n i = i.
Proof.
  intros Hi. unfold clamp.
  repeat rewrite (proj2 (Z.ltb_ge i 0)) by lia.
  rewrite (proj2 (Z.ltb_ge n i)) by lia. reflexivity.
Qed.

Lemma upto_app p r i : i = len p -> upto (p ++ r) i = p.
Proof.
  intros ->. unfold upto, slice.
  rewrite clamp_inside by (rewrite len_app; pose proof (len_nonneg p);
                           pose proof (len_nonneg r); lia).
  rewrite Z.sub_0_r. unfold len. rewrite Nat2Z.id. simpl.
  apply take_app_length.
Qed.

Lemma from_app p r i : i = len p -> from (p ++ r) i = r.
Proof.
  intros ->. unfold from, slice.
  rewrite clamp_inside by (rewrite len_app; pose proof (len_nonneg p);
                           pose proof (len_nonneg r); lia).
  rewrite len_app. unfold len. rewrite Nat2Z.id, drop_app_length.
  apply take_ge. lia.
Qed.

Lemma sub_app p q r i j :
  i = len p -> j = len p + len q -> sub (p ++ q ++ r) i j = q.
Proof.
  intros -> ->. unfold sub, slice.
  pose proof (len_nonneg p). pose proof (len_nonneg q). pose proof (len_nonneg r).
  rewrite !clamp_inside by (rewrite !len_app; lia).
  unfold len. rewrite Nat2Z.id, drop_app_length.
  replace (Z.to_nat _) with (length q) by lia.
  apply take_app_length.
Qed.

(** A string cut at two positions. *)
Lemma cut3 s i j :
  0 <= i <= j -> j <= len s ->
  exists p q r, s = p ++ q ++ r /\ len p = i /\ len q = j - i.
Proof.
  intros Hij Hj.
  exists (take (Z.to_nat i) s),
         (take (Z.to_nat (j - i)) (drop (Z.to_nat i) s)),
         (drop (Z.to_nat (j - i)) (drop (Z.to_nat i) s)).
  unfold len in *. rewrite !take_drop. split; [reflexivity|].
  rewrite !length_take, length_drop. lia.
Qed.

End Slices.

(** ** The marker insertion on disjoint spans *)

(** Two insertions as lines 55-56 (or 58-59) do them, for any two marker pairs
    of eleven characters together. *)
Lemma insert_twice (z o1 c1 o2 c2 : str) (a b c d : Z) :
  len o1 + len c1 = 11 ->
  0 <= a <= b -> b < c -> c <= d -> d < len z ->
  let z1 := upto z a ++ o1 ++ sub z a (b + 1) ++ c1 ++ from z (b + 1) in
  inserted z
    (upto z1 (c + 11) ++ o2 ++ sub z1 (c + 11) (d + 12) ++ c2 ++ from z1 (d + 12))
    o1 c1 o2 c2 (a, b) (c, d) (sub z a (b + 1)) (sub z c (d + 1)).
Proof.
  intros Hm Hab Hbc Hcd Hd.
  destruct (cut3 z a (b + 1)) as (u & t1 & rest & Hz & Hu & Ht1); [lia|lia|].
  assert (Hrest : len rest = len z - (b + 1)).
  { rewrite Hz, !len_app. lia. }
  destruct (cut3 rest (c - (b + 1)) (d + 1 - (b + 1)))
    as (m & t2 & w & Hr & Hlm & Ht2); [lia|lia|].
  subst rest. clear Hrest.
  assert (E1 : upto z a = u) by (rewrite Hz; apply upto_app; lia).
  assert (E2 : sub z a (b + 1) = t1) by (rewrite Hz; apply sub_app; lia).
  assert (E3 : from z (b + 1) = m ++ t2 ++ w).
  { rewrite Hz, app_assoc. apply from_app. rewrite len_app. lia. }
  assert (E4 : sub z c (d + 1) = t2).
  { rewrite Hz. replace (u ++ t1 ++ m ++ t2 ++ w) with ((u ++ t1 ++ m) ++ t2 ++ w)
      by (rewrite <- !app_assoc; reflexivity).
    apply sub_app; rewrite !len_app; lia. }
  intros z1. subst z1. rewrite E1, E2, E3, E4.
  set (pre := u ++ o1 ++ t1 ++ c1 ++ m).
  assert (Hpre : len pre = c + 11) by (unfold pre; rewrite !len_app; lia).
  replace (u ++ o1 ++ t1 ++ c1 ++ m ++ t2 ++ w) with (pre ++ t2 ++ w)
    by (unfold pre; rewrite <- !app_assoc; reflexivity).
  rewrite (upto_app pre) by lia.
  rewrite (sub_app pre) by lia.
  replace (pre ++ t2 ++ w) with ((pre ++ t2) ++ w) by (rewrite <- app_assoc; reflexivity).
  rewrite (from_app (pre ++ t2)) by (rewrite len_app; lia).
  exists u, m, w. simpl.
  split; [exact Hz|].
  split; [unfold pre; rewrite <- !app_assoc; reflexivity|].
  repeat split; rewrite ?len_app in *; unfold pre in Hpre; rewrite ?len_app in Hpre; lia.
Qed.

(** What a row that went through [row_body] without exception looks like. *)
Lemma row_body_ok r v v' o :
  row_body r v = Ok (v', o) ->
  exists sub_typ obj_typ a b c d,
    entity_type (subject_entity r) = Ok sub_typ /\
    entity_type (object_entity r) = Ok obj_typ /\
    scan (subject_entity r) (object_entity r) v = Ok v' /\
    sub_start v' = Some a /\ sub_end v' = Some b /\
    obj_start v' = Some c /\ obj_end v' = Some d /\
    o = {| df_id := id r;
           df_sentence := mark (sentence r) (a, b) (c, d);
           df_subject_entity := sub (sentence r) a (b + 1);
           df_object_entity := sub (sentence r) c (d + 1);
           df_subject_type := sub_typ;
           df_object_type := obj_typ;
           df_label := label r;
           df_subject_idx := (a, b);
           df_object_idx := (c, d) |}.
Proof.
  unfold row_body. intros H.
  destruct (entity_type (subject_entity r)) as [ts|]; [|discriminate].
  destruct (entity_type (object_entity r)) as [to|]; [|discriminate].
  simpl in H.
  destruct (scan _ _ v) as [w|]; [|discriminate]. simpl in H.
  destruct (sub_start w) as [a|] eqn:Ha; [|discriminate].
  destruct (sub_end w) as [b|] eqn:Hb; [|discriminate].
  destruct (obj_start w) as [c|] eqn:Hc; [|discriminate].
  destruct (obj_end w) as [d|] eqn:Hd; [|discriminate].
  simpl in H. injection H as <- <-.
  exists ts, to, a, b, c, d. rewrite Ha, Hb, Hc, Hd. repeat split.
Qed.

(** The two branches of the insertion, on spans that are disjoint and lie
    within the sentence. *)
Lemma mark_inserted (z : str) (a b c d : Z) :
  valid_span z (a, b) -> valid_span z (c, d) -> disjoint (a, b) (c, d) ->
  if a <? c
  then inserted z (mark z (a, b) (c, d))
         (lit "[SUB]") (lit "[/SUB]") (lit "[OBJ]") (lit "[/OBJ]")
         (a, b) (c, d) (sub z a (b + 1)) (sub z c (d + 1))
  else inserted z (mark z (a, b) (c, d))
         (lit "[OBJ]") (lit "[/OBJ]") (lit "[SUB]") (lit "[/SUB]")
         (c, d) (a, b) (sub z c (d + 1)) (sub z a (b + 1)).
Proof.
  intros Hs Ho Hd. unfold valid_span, disjoint in *. cbn [fst snd] in *.
  unfold mark. cbn [fst snd].
  destruct (Z.ltb_spec a c).
  - apply (insert_twice z (lit "[SUB]") (lit "[/SUB]")); [reflexivity|lia..].
  - apply (insert_twice z (lit "[OBJ]") (lit "[/OBJ]")); [reflexivity|lia..].
Qed.

(** ** Deleting the markers again *)

Section Removal.
Implicit Types m p q s t : str.

Lemma eqb_str_true a b : eqb_str a b = true <-> a = b.
Proof. unfold eqb_str. apply bool_decide_eq_true. Qed.

Lemma eqb_str_false a b : eqb_str a b = false <-> a <> b.
Proof. unfold eqb_str. apply bool_decide_eq_false. Qed.

Lemma contains_spec m s :
  contains m s = true <-> exists a b, s = a ++ m ++ b.
Proof.
  split.
  - induction s as [|c s IH]; simpl; rewrite orb_true_iff; intros [H|H].
    + apply eqb_str_true in H. exists [], []. rewrite take_nil in H.
      subst m. reflexivity.
    + discriminate.
    + apply eqb_str_true in H. exists [], (drop (length m) (c :: s)).
      simpl. rewrite <- (take_drop (length m) (c :: s)) at 1.
      f_equal. exact H.
    + destruct (IH H) as (a & b & ->). exists (c :: a), b. reflexivity.
  - intros (a & b & ->). induction a as [|c a IH].
    + simpl. destruct (m ++ b) eqn:E; simpl; rewrite orb_true_iff; left;
        apply eqb_str_true; rewrite <- E; apply take_app_length.
    + simpl. rewrite IH. apply orb_true_r.
Qed.

Lemma contains_false_at m s (i : nat) :
  contains m s = false -> take (length m) (drop i s) <> m.
Proof.
  intros H E. apply not_true_iff_false in H. apply H, contains_spec.
  exists (take i s), (drop (length m) (drop i s)).
  rewrite <- (take_drop i s) at 1. f_equal.
  rewrite <- (take_drop (length m) (drop i s)) at 1. f_equal. exact E.
Qed.

Lemma contains_false_mid m a s b :
  contains m (a ++ s ++ b) = false -> contains m s = false.
Proof.
  intros H. apply not_true_iff_false. intros E. apply not_true_iff_false in H.
  apply H. apply contains_spec in E as (a' & b' & ->). apply contains_spec.
  exists (a ++ a'), (b' ++ b). rewrite <- !app_assoc. reflexivity.
Qed.

(** [replace] steps over text in which no occurrence starts. *)
Lemma remove_past m p t :
  m <> [] ->
  (forall i : nat, (i < length p)%nat -> take (length m) (drop i (p ++ t)) <> m) ->
  remove m (p ++ t) = p ++ remove m t.
Proof.
  intros Hm. destruct m as [|c0 m0]; [congruence|]. clear Hm.
  set (m := c0 :: m0). unfold remove. fold m.
  induction p as [|c p IH]; intros H; [reflexivity|].
  simpl. pose proof (H 0%nat ltac:(simpl; lia)) as H0. simpl in H0.
  apply eqb_str_false in H0. change (c :: take (length m0) (p ++ t)) with
    (take (length m) (c :: p ++ t)) in H0 |- *.
  cbn [app]. simpl. simpl in H0. rewrite H0. f_equal. apply IH.
  intros i Hi. apply (H (S i)). simpl. lia.
Qed.

Lemma replace_go_skip m q t : replace_go m (length q) (q ++ t) = replace_go m 0 t.
Proof. induction q as [|c q IH]; [reflexivity|]. simpl. exact IH. Qed.

(** [replace] drops an occurrence it stands at. *)
Lemma remove_hit m t : m <> [] -> remove m (m ++ t) = remove m t.
Proof.
  destruct m as [|c m0]; [congruence|]. intros _. unfold remove.
  set (m := c :: m0).
  change (replace_go m 0 (c :: m0 ++ t) = replace_go m 0 t).
  cbn [replace_go].
  replace (eqb_str (take (length m) (c :: m0 ++ t)) m) with true.
  - replace (length m - 1)%nat with (length m0) by (simpl; lia).
    apply replace_go_skip.
  - symmetry. apply eqb_str_true.
    change (c :: m0 ++ t) with (m ++ t). apply take_app_length.
Qed.

(** An occurrence of a bracketed token never runs from text into a following
    bracket: the token would hold a second opening bracket. *)
Lemma occurrence_inside m b q t :
  m = "["%char :: b -> ~ In "["%char b -> q <> [] ->
  (t = [] \/ exists t', t = "["%char :: t') ->
  take (length m) (q ++ t) = m -> take (length m) q = m.
Proof.
  intros Hm Hb Hq Ht H.
  destruct (le_lt_dec (length m) (length q)) as [Hle|Hlt].
  - rewrite take_app_le in H by exact Hle. exact H.
  - exfalso. rewrite take_app, (take_ge q) in H by lia.
    destruct Ht as [->|(t' & ->)].
    + rewrite take_nil, app_nil_r in H. subst q. lia.
    + destruct (length m - length q)%nat as [|n] eqn:E; [lia|].
      simpl in H. destruct q as [|c q]; [congruence|].
      rewrite Hm in H. simpl in H. injection H as _ H.
      apply Hb. rewrite <- H. apply in_or_app. right. left. reflexivity.
Qed.

Lemma remove_text m b p t :
  m = "["%char :: b -> ~ In "["%char b ->
  contains m p = false ->
  (t = [] \/ exists t', t = "["%char :: t') ->
  remove m (p ++ t) = p ++ remove m t.
Proof.
  intros Hm Hb Hp Ht. apply remove_past; [rewrite Hm; discriminate|].
  intros i Hi E. rewrite drop_app_le in E by lia.
  apply (contains_false_at m p i Hp).
  apply (occurrence_inside m b (drop i p) t Hm Hb); [|exact Ht|exact E].
  intros E0. apply (f_equal length) in E0. rewrite length_drop in E0.
  simpl in E0. lia.
Qed.

Lemma tok_bracketed k : exists b, tok k = "["%char :: b /\ ~ In "["%char b.
Proof.
  destruct k; eexists; (split; [reflexivity|]); simpl; intuition discriminate.
Qed.

Lemma tok_starts k t : exists t', tok k ++ t = "["%char :: t'.
Proof. destruct k; eexists; reflexivity. Qed.

(** [replace] of one marker steps over another marker. *)
Lemma remove_other k k' t :
  k <> k' -> remove (tok k) (tok k' ++ t) = tok k' ++ remove (tok k) t.
Proof.
  intros Hk. apply remove_past; [destruct k; discriminate|].
  intros i Hi.
  destruct k, k'; try congruence;
    do 6 (try destruct i as [|i]); simpl in Hi; try lia; simpl; discriminate.
Qed.

End Removal.

Section Pieces.
Implicit Types (l : list (str * marker)) (p q : str) (s : pieces).

Lemma flat_glue p s : flat (glue p s) = p ++ flat s.
Proof.
  destruct s as [[|[p1 k1] l] q]; unfold glue, flat; simpl; [reflexivity|].
  rewrite <- app_assoc. reflexivity.
Qed.

Lemma text_glue p s : text (glue p s) = p ++ text s.
Proof.
  destruct s as [[|[p1 k1] l] q]; unfold glue, text; simpl; [reflexivity|].
  rewrite <- !app_assoc. reflexivity.
Qed.

Lemma text_unmark k s : text (unmark k s) = text s.
Proof.
  destruct s as [l q]. unfold unmark. simpl.
  induction l as [|[p k'] l IH]; [reflexivity|].
  simpl. destruct (decide (k = k')).
  - rewrite text_glue, IH. unfold text. simpl. rewrite <- app_assoc. reflexivity.
  - unfold text in *. simpl in *. rewrite <- !app_assoc. f_equal. exact IH.
Qed.

Lemma remove_clean k q : contains (tok k) q = false -> remove (tok k) q = q.
Proof.
  intros H. destruct (tok_bracketed k) as (b & Hm & Hb).
  rewrite <- (app_nil_r q) at 1.
  rewrite (remove_text (tok k) b q [] Hm Hb H) by (left; reflexivity).
  rewrite Hm. simpl. apply app_nil_r.
Qed.

(** One [replace] pass over a marked string whose text is free of the marker
    deleted: exactly the inserted copies of the marker go. *)
Lemma remove_flat k s :
  contains (tok k) (text s) = false -> remove (tok k) (flat s) = flat (unmark k s).
Proof.
  destruct s as [l q]. unfold unmark, flat, text. simpl.
  induction l as [|[p k'] l IH]; simpl; intros H.
  - apply remove_clean. exact H.
  - destruct (tok_bracketed k) as (b & Hm & Hb).
    assert (Hp : contains (tok k) p = false).
    { apply (contains_false_mid _ [] p (concat (map fst l) ++ q)).
      simpl. rewrite <- app_assoc in H. exact H. }
    assert (Hl : contains (tok k) (concat (map fst l) ++ q) = false).
    { apply (contains_false_mid _ p _ []).
      rewrite app_nil_r, <- app_assoc in *. exact H. }
    rewrite (remove_text (tok k) b p _ Hm Hb Hp)
      by (right; apply tok_starts).
    destruct (decide (k = k')) as [<-|Hne].
    + rewrite remove_hit by (rewrite Hm; discriminate).
      rewrite (IH Hl). symmetry. apply (flat_glue p).
    + rewrite remove_other by exact Hne.
      rewrite (IH Hl). reflexivity.
Qed.

Lemma marks_glue p s : marks (glue p s) = marks s.
Proof. destruct s as [[|[p1 k1] l] q]; reflexivity. Qed.

Lemma marks_unmark k s k' : In k' (marks (unmark k s)) -> In k' (marks s) /\ k' <> k.
Proof.
  destruct s as [l q]. unfold unmark, marks. simpl.
  induction l as [|[p k0] l IH]; simpl; [tauto|].
  destruct (decide (k = k0)) as [<-|Hne].
  - change (In k' (marks (glue p (unmark_pieces k l q))) -> (k = k' \/ In k' (map snd l)) /\ k' <> k).
    rewrite marks_glue. intros H. destruct (IH H). tauto.
  - simpl. intros [<-|H]; [split; [tauto|congruence]|]. destruct (IH H). tauto.
Qed.

Lemma text_unmark_all ks s : text (unmark_all ks s) = text s.
Proof.
  revert s. induction ks as [|k ks IH]; intros s; [reflexivity|].
  simpl. rewrite IH. apply text_unmark.
Qed.

Lemma marks_unmark_all ks s k' :
  In k' (marks (unmark_all ks s)) -> In k' (marks s) /\ ~ In k' ks.
Proof.
  revert s. induction ks as [|k ks IH]; intros s; simpl; [tauto|].
  intros H. destruct (IH _ H) as [H1 H2].
  destruct (marks_unmark _ _ _ H1). split; [assumption|]. intros [?|?]; auto.
Qed.

(** The passes of [replace] over a marked string whose text holds no marker
    string take the inserted markers away, and nothing else. *)
Lemma strip_flat ks s :
  marker_free (text s) -> strip_markers_in ks (flat s) = flat (unmark_all ks s).
Proof.
  revert s. induction ks as [|k ks IH]; intros s H; [reflexivity|].
  simpl. rewrite remove_flat by apply H.
  apply IH. rewrite text_unmark. exact H.
Qed.

Lemma flat_unmarked s : marks s = [] -> flat s = text s.
Proof. destruct s as [[|[p k] l] q]; [reflexivity|discriminate]. Qed.

(** Once each of the four markers had its pass the text is back. *)
Lemma strip_all ks s :
  marker_free (text s) -> (forall k, In k ks) ->
  strip_markers_in ks (flat s) = text s.
Proof.
  intros Hfree Hks. rewrite strip_flat by exact Hfree.
  rewrite flat_unmarked; [apply text_unmark_all|].
  destruct (marks (unmark_all ks s)) as [|k l] eqn:E; [reflexivity|].
  exfalso. destruct (marks_unmark_all ks s k) as [_ Hk]; [rewrite E; left; reflexivity|].
  apply Hk, Hks.
Qed.

Lemma strip_inserted ks z marked k1 k1' k2 k2' i j t1 t2 :
  inserted z marked (tok k1) (tok k1') (tok k2) (tok k2') i j t1 t2 ->
  marker_free z -> (forall k, In k ks) ->
  strip_markers_in ks marked = z.
Proof.
  intros (u & m & w & Hz & Hm & _) Hfree Hks.
  set (s := ([(u, k1); (t1, k1'); (m, k2); (t2, k2')], w) : pieces).
  assert (Et : text s = z).
  { unfold s, text. simpl. rewrite Hz, app_nil_r, <- !app_assoc. reflexivity. }
  assert (Ef : flat s = marked) by (rewrite Hm; reflexivity).
  rewrite <- Ef, <- Et. apply strip_all; [rewrite Et; exact Hfree|exact Hks].
Qed.

End Pieces.

(** C2, as stated, fails on a sentence that holds a marker string of its own:
    the spans of the row are disjoint and inside the sentence, and deleting
    the marker strings from the marked sentence deletes the sentence's own
    [[SUB]] too.  It fails as well on the row [bo], whose sentence holds no
    marker string and whose fields carry the spans 0..1 and 10..62: loaded
    after the row [ibm] it is marked with the object offsets 1 and 3 of that
    row, and deleting the marker strings leaves [[/SUB]] behind. *)
Lemma strip_markers_not_identity :
  (load_data [literal_marker] = Ok [literal_marker_row] /\
   valid_span (sentence literal_marker) (df_subject_idx literal_marker_row) /\
   valid_span (sentence literal_marker) (df_object_idx literal_marker_row) /\
   disjoint (df_subject_idx literal_marker_row) (df_object_idx literal_marker_row) /\
   strip_markers (df_sentence literal_marker_row) = lit "ab" /\
   strip_markers (df_sentence literal_marker_row) <> sentence literal_marker) /\
  ((exists ws wo, subject_entity bo = entity_repr ws 0 1 (lit "PER")
                  /\ object_entity bo = entity_repr wo 10 62 (lit "ORG")) /\
   valid_span (sentence bo) (0, 1) /\ valid_span (sentence bo) (10, 62) /\
   disjoint (0, 1) (10, 62) /\
   marker_free (sentence bo) /\
   load_data [ibm; bo] = Ok [ibm_row; bo_after_ibm] /\
   strip_markers (df_sentence bo_after_ibm)
   = lit ("Bo[/SUB] joined International Business Machines Corporation" ++
          " of Armonk") /\
   strip_markers (df_sentence bo_after_ibm) <> sentence bo).
Proof.
  split.
  - split; [vm_compute; reflexivity|].
    split; [unfold valid_span, len; simpl; lia|].
    split; [unfold valid_span, len; simpl; lia|].
    split; [unfold disjoint; simpl; lia|].
    split; [vm_compute; reflexivity|].
    vm_compute. discriminate.
  - split.
    { exists (lit "Bo"),
        (lit "International Business Machines Corporation of Armonk").
      split; reflexivity. }
    split; [unfold valid_span, len; simpl; lia|].
    split; [unfold valid_span, len; simpl; lia|].
    split; [unfold disjoint; simpl; lia|].
    split; [intros []; vm_compute; reflexivity|].
    split; [vm_compute; reflexivity|].
    split; [vm_compute; reflexivity|].
    vm_compute. discriminate.
Qed.

(** Deleting the markers from a sentence marked on disjoint spans that lie
    within it, when the sentence holds no marker string of its own. *)
Lemma strip_mark (z : str) (a b c d : Z) (ks : list marker) :
  valid_span z (a, b) -> valid_span z (c, d) -> disjoint (a, b) (c, d) ->
  marker_free z -> (forall k, In k ks) ->
  strip_markers_in ks (mark z (a, b) (c, d)) = z.
Proof.
  intros Hs Ho Hd Hfree Hks.
  pose proof (mark_inserted z a b c d Hs Ho Hd) as Hi.
  destruct (a <? c).
  - exact (strip_inserted ks _ _ SUB ESUB OBJ EOBJ _ _ _ _ Hi Hfree Hks).
  - exact (strip_inserted ks _ _ OBJ EOBJ SUB ESUB _ _ _ _ Hi Hfree Hks).
Qed.

(** ** The scan for the offsets *)

Section Scan.
Variables x y : str.

Lemma split_cons sep s : exists h t, split sep s = h :: t.
Proof.
  induction s as [|c s (h & t & IH)]; simpl; [eauto|].
  destruct (Ascii.eqb c sep); [eauto|]. rewrite IH. eauto.
Qed.

Lemma int_raises s e : int s = Raise e -> e = ValueError.
Proof.
  unfold int. destruct (match strip s with [] => _ | _ => _ end);
    [|congruence].
  destruct (max_str_digits <? _); [congruence|discriminate].
Qed.

Lemma int_field_raises s k e : int_field s k = Raise e -> e = ValueError.
Proof.
  unfold int_field. destruct (split_cons "," (from s k)) as (h & t & ->).
  simpl. apply int_raises.
Qed.

Lemma pass_int_field s k : fails (int_field s k) = false -> exists n, int_field s k = Ok n.
Proof. destruct (int_field s k) as [n|e]; [eauto|discriminate]. Qed.

Lemma scan_body_ok i v v' :
  scan_body x y i v = Ok v' ->
  sub_start v' = after (at_start_idx x i) (int_field x (i + 12)) (sub_start v) /\
  sub_end v' = after (at_end_idx x i) (int_field x (i + 10)) (sub_end v) /\
  obj_start v' = after (at_start_idx y i) (int_field y (i + 12)) (obj_start v) /\
  obj_end v' = after (at_end_idx y i) (int_field y (i + 10)) (obj_end v).
Proof.
  unfold scan_body, after.
  destruct (at_start_idx x i); [destruct (int_field x (i + 12)); [|discriminate]|];
  (destruct (at_end_idx x i); [destruct (int_field x (i + 10)); [|discriminate]|]);
  (destruct (at_start_idx y i); [destruct (int_field y (i + 12)); [|discriminate]|]);
  (destruct (at_end_idx y i); [destruct (int_field y (i + 10)); [|discriminate]|]);
  simpl; intros [= <-]; repeat split.
Qed.

Lemma scan_body_clean i v :
  bad_at x y i = false -> exists v', scan_body x y i v = Ok v'.
Proof.
  unfold bad_at, scan_body. rewrite !orb_false_iff, !andb_false_iff.
  intros [[[H1 H2] H3] H4].
  destruct (at_start_idx x i);
    [destruct H1 as [|H1]; [discriminate|];
     destruct (pass_int_field _ _ H1) as (? & ->)|];
  (destruct (at_end_idx x i);
    [destruct H2 as [|H2]; [discriminate|];
     destruct (pass_int_field _ _ H2) as (? & ->)|]);
  (destruct (at_start_idx y i);
    [destruct H3 as [|H3]; [discriminate|];
     destruct (pass_int_field _ _ H3) as (? & ->)|]);
  (destruct (at_end_idx y i);
    [destruct H4 as [|H4]; [discriminate|];
     destruct (pass_int_field _ _ H4) as (? & ->)|]);
  simpl; eauto.
Qed.

Lemma scan_body_bad i v :
  bad_at x y i = true -> scan_body x y i v = Raise ValueError.
Proof.
  unfold bad_at, scan_body. intros H.
  destruct (at_start_idx x i); simpl in H;
    [destruct (int_field x (i + 12)) as [?|e] eqn:E1;
     [|rewrite (int_field_raises _ _ _ E1); reflexivity]|];
  (destruct (at_end_idx x i); simpl in H;
    [destruct (int_field x (i + 10)) as [?|e] eqn:E2;
     [|rewrite (int_field_raises _ _ _ E2); reflexivity]|]);
  (destruct (at_start_idx y i); simpl in H;
    [destruct (int_field y (i + 12)) as [?|e] eqn:E3;
     [|rewrite (int_field_raises _ _ _ E3); reflexivity]|]);
  (destruct (at_end_idx y i); simpl in H;
    [destruct (int_field y (i + 10)) as [?|e] eqn:E4;
     [|rewrite (int_field_raises _ _ _ E4); reflexivity]|]);
  simpl in *; discriminate.
Qed.

End Scan.

Section Loops.
Context {I S : Type} (body : I -> S -> result S).

(** A property kept by every round of a loop is kept by the loop. *)
Lemma for_each_keeps (P : S -> Prop) (l : list I) :
  (forall i s s', In i l -> body i s = Ok s' -> P s -> P s') ->
  forall s s', for_each body l s = Ok s' -> P s -> P s'.
Proof.
  induction l as [|i l IH]; simpl; intros Hstep s s' H Hs.
  - congruence.
  - destruct (body i s) as [s1|] eqn:E; [|discriminate]. simpl in H.
    apply (IH (fun j a b Hj => Hstep j a b (or_intror Hj)) s1 s' H).
    apply (Hstep i s s1); auto.
Qed.

Lemma for_each_app (l1 l2 : list I) (s : S) :
  for_each body (l1 ++ l2) s = (s1 <- for_each body l1 s ;; for_each body l2 s1).
Proof.
  revert s. induction l1 as [|i l1 IH]; intros s; simpl; [reflexivity|].
  destruct (body i s); simpl; [apply IH|reflexivity].
Qed.

End Loops.

Section ScanLoop.
Variables x y : str.

Lemma scan_clean_on (l : list Z) (v : locals) :
  forallb (fun i => negb (bad_at x y i)) l = true ->
  exists v', for_each (scan_body x y) l v = Ok v'.
Proof.
  revert v. induction l as [|i l IH]; simpl; intros v H; [eauto|].
  apply andb_true_iff in H as [Hi Hl]. apply negb_true_iff in Hi.
  destruct (scan_body_clean x y i v Hi) as (v1 & ->). simpl. apply IH, Hl.
Qed.

Lemma scan_dirty_on (l : list Z) (v : locals) :
  forallb (fun i => negb (bad_at x y i)) l = false ->
  for_each (scan_body x y) l v = Raise ValueError.
Proof.
  revert v. induction l as [|i l IH]; simpl; intros v H; [discriminate|].
  destruct (bad_at x y i) eqn:Hi.
  - rewrite (scan_body_bad x y i v Hi). reflexivity.
  - destruct (scan_body_clean x y i v Hi) as (v1 & ->). simpl. apply IH, H.
Qed.

Lemma scan_clean v : clean x y = true -> exists v', scan x y v = Ok v'.
Proof. apply scan_clean_on. Qed.

Lemma scan_dirty v : clean x y = false -> scan x y v = Raise ValueError.
Proof. apply scan_dirty_on. Qed.

Lemma scan_raises v e : scan x y v = Raise e -> e = ValueError.
Proof.
  destruct (clean x y) eqn:E.
  - destruct (scan_clean v E) as (v' & ->). discriminate.
  - rewrite (scan_dirty v E). congruence.
Qed.

Lemma missing_at key s n i :
  missing key s n = true -> In i (range n) -> key s i = false.
Proof.
  unfold missing. rewrite forallb_forall. intros H Hi.
  apply negb_true_iff, H, Hi.
Qed.

(** A variable whose key the scan does not find keeps its value. *)
Lemma scan_keeps_sub_start v v' :
  scan x y v = Ok v' -> missing at_start_idx x (len x) = true ->
  sub_start v' = sub_start v.
Proof.
  intros H Hm.
  apply (for_each_keeps (scan_body x y) (fun w => sub_start w = sub_start v)
           (range (len x))) with (s := v); [|exact H|reflexivity].
  intros i s s' Hi Hb <-. destruct (scan_body_ok x y i s s' Hb) as (E & _).
  rewrite E, (missing_at _ _ _ _ Hm Hi). reflexivity.
Qed.

Lemma scan_keeps_sub_end v v' :
  scan x y v = Ok v' -> missing at_end_idx x (len x) = true ->
  sub_end v' = sub_end v.
Proof.
  intros H Hm.
  apply (for_each_keeps (scan_body x y) (fun w => sub_end w = sub_end v)
           (range (len x))) with (s := v); [|exact H|reflexivity].
  intros i s s' Hi Hb <-. destruct (scan_body_ok x y i s s' Hb) as (_ & E & _).
  rewrite E, (missing_at _ _ _ _ Hm Hi). reflexivity.
Qed.

Lemma scan_keeps_obj_start v v' :
  scan x y v = Ok v' -> missing at_start_idx y (len x) = true ->
  obj_start v' = obj_start v.
Proof.
  intros H Hm.
  apply (for_each_keeps (scan_body x y) (fun w => obj_start w = obj_start v)
           (range (len x))) with (s := v); [|exact H|reflexivity].
  intros i s s' Hi Hb <-. destruct (scan_body_ok x y i s s' Hb) as (_ & _ & E & _).
  rewrite E, (missing_at _ _ _ _ Hm Hi). reflexivity.
Qed.

Lemma scan_keeps_obj_end v v' :
  scan x y v = Ok v' -> missing at_end_idx y (len x) = true ->
  obj_end v' = obj_end v.
Proof.
  intros H Hm.
  apply (for_each_keeps (scan_body x y) (fun w => obj_end w = obj_end v)
           (range (len x))) with (s := v); [|exact H|reflexivity].
  intros i s s' Hi Hb <-. destruct (scan_body_ok x y i s s' Hb) as (_ & _ & _ & E).
  rewrite E, (missing_at _ _ _ _ Hm Hi). reflexivity.
Qed.

(** The scan never unbinds a variable. *)
Lemma scan_keeps_bound v v' :
  scan x y v = Ok v' -> all_bound v -> all_bound v'.
Proof.
  apply (for_each_keeps (scan_body x y) all_bound).
  intros i s s' _ Hb (H1 & H2 & H3 & H4).
  destruct (scan_body_ok x y i s s' Hb) as (E1 & E2 & E3 & E4).
  unfold all_bound, after in *. rewrite E1, E2, E3, E4.
  revert Hb. unfold scan_body.
  destruct (at_start_idx x i); [destruct (int_field x (i + 12)); [|discriminate]|];
  (destruct (at_end_idx x i); [destruct (int_field x (i + 10)); [|discriminate]|]);
  (destruct (at_start_idx y i); [destruct (int_field y (i + 12)); [|discriminate]|]);
  (destruct (at_end_idx y i); [destruct (int_field y (i + 10)); [|discriminate]|]);
  intros _; repeat split; eauto.
Qed.

End ScanLoop.

(** ** Rows *)

Section Rows.
Implicit Types (r : raw_row) (v : locals) (o : df_row).

Lemma index_raises {A} (l : list A) i e : index l i = Raise e -> e = IndexError.
Proof.
  unfold index. destruct (_ <? 0); [congruence|].
  destruct (nth_error _ _); [discriminate|congruence].
Qed.

Lemma entity_type_raises s e : entity_type s = Raise e -> e = IndexError.
Proof.
  unfold entity_type.
  destruct (index (split ":" (sub s 1 (-1))) (-1)) as [t|e'] eqn:E; simpl.
  - apply index_raises.
  - intros [= <-]. exact (index_raises _ _ _ E).
Qed.

(** A row whose types are found and whose scan ends with all four variables
    bound gives a row of the data frame. *)
Lemma row_body_scanned r v v1 ts to a b c d :
  entity_type (subject_entity r) = Ok ts ->
  entity_type (object_entity r) = Ok to ->
  scan (subject_entity r) (object_entity r) v = Ok v1 ->
  sub_start v1 = Some a -> sub_end v1 = Some b ->
  obj_start v1 = Some c -> obj_end v1 = Some d ->
  row_body r v =
  Ok (v1, {| df_id := id r;
             df_sentence := mark (sentence r) (a, b) (c, d);
             df_subject_entity := sub (sentence r) a (b + 1);
             df_object_entity := sub (sentence r) c (d + 1);
             df_subject_type := ts;
             df_object_type := to;
             df_label := label r;
             df_subject_idx := (a, b);
             df_object_idx := (c, d) |}).
Proof.
  intros Hts Hto Hscan Ha Hb Hc Hd. unfold row_body.
  rewrite Hts, Hto. simpl. rewrite Hscan. simpl.
  rewrite Ha, Hb, Hc, Hd. reflexivity.
Qed.

Lemma row_body_bound r v v' o : row_body r v = Ok (v', o) -> all_bound v'.
Proof.
  intros H. destruct (row_body_ok _ _ _ _ H)
    as (ts & to & a & b & c & d & _ & _ & _ & Ha & Hb & Hc & Hd & _).
  unfold all_bound. rewrite Ha, Hb, Hc, Hd. repeat split; eauto.
Qed.

Lemma row_body_runs r v ts to :
  entity_type (subject_entity r) = Ok ts ->
  entity_type (object_entity r) = Ok to ->
  clean (subject_entity r) (object_entity r) = true ->
  all_bound v ->
  exists v' o, row_body r v = Ok (v', o).
Proof.
  intros Hts Hto Hc Hv.
  destruct (scan_clean _ _ v Hc) as (v1 & Hscan).
  destruct (scan_keeps_bound _ _ _ _ Hscan Hv)
    as ([a Ha] & [b Hb] & [c Hc'] & [d Hd]).
  eexists _, _. eapply row_body_scanned; eauto.
Qed.

Lemma row_body_dirty r v ts to :
  entity_type (subject_entity r) = Ok ts ->
  entity_type (object_entity r) = Ok to ->
  clean (subject_entity r) (object_entity r) = false ->
  row_body r v = Raise ValueError.
Proof.
  intros Hts Hto Hc. unfold row_body. rewrite Hts, Hto. simpl.
  rewrite (scan_dirty _ _ v Hc). reflexivity.
Qed.

Lemma row_body_clean r v ts to :
  entity_type (subject_entity r) = Ok ts ->
  entity_type (object_entity r) = Ok to ->
  clean (subject_entity r) (object_entity r) = true ->
  row_body r v = Raise UnboundLocalError \/ exists v' o, row_body r v = Ok (v', o).
Proof.
  intros Hts Hto Hc. unfold row_body. rewrite Hts, Hto. simpl.
  destruct (scan_clean _ _ v Hc) as (v1 & ->). simpl.
  destruct (sub_start v1); [|left; reflexivity].
  destruct (sub_end v1); [|left; reflexivity].
  destruct (obj_start v1); [|left; reflexivity].
  destruct (obj_end v1); [|left; reflexivity].
  right. simpl. eauto.
Qed.

(** With all four variables bound a row cannot stop on an unbound variable. *)
Lemma row_body_no_unbound r v :
  all_bound v -> row_body r v <> Raise UnboundLocalError.
Proof.
  intros Hv H. unfold row_body in H.
  destruct (entity_type (subject_entity r)) as [ts|e] eqn:Hts;
    [|apply entity_type_raises in Hts; simpl in H; congruence].
  destruct (entity_type (object_entity r)) as [to|e] eqn:Hto;
    [|apply entity_type_raises in Hto; simpl in H; congruence].
  simpl in H.
  destruct (scan _ _ v) as [v1|e] eqn:Hscan;
    [|apply scan_raises in Hscan; simpl in H; congruence].
  destruct (scan_keeps_bound _ _ _ _ Hscan Hv)
    as ([a Ha] & [b Hb] & [c Hc'] & [d Hd]).
  simpl in H. rewrite Ha, Hb, Hc', Hd in H. discriminate.
Qed.

Lemma append_rows data v acc :
  for_each append_row data (v, acc)
  = (s <- for_each append_row data (v, []) ;; Ok (s.1, acc ++ s.2)).
Proof.
  revert v acc. induction data as [|r data IH]; intros v acc; simpl.
  - rewrite app_nil_r. reflexivity.
  - unfold append_row at 1 3. simpl.
    destruct (row_body r v) as [[v1 o]|e]; simpl; [|reflexivity].
    rewrite (IH v1 (acc ++ [o])), (IH v1 [o]).
    destruct (for_each append_row data (v1, [])) as [[v2 os]|e]; simpl;
      [|reflexivity].
    rewrite <- app_assoc. reflexivity.
Qed.

(** [load_from], row by row. *)
Lemma load_from_cons v r data :
  load_from v (r :: data)
  = (s <- row_body r v ;; os <- load_from s.1 data ;; Ok (s.2 :: os)).
Proof.
  unfold load_from. simpl. unfold append_row at 1. simpl.
  destruct (row_body r v) as [[v1 o]|e]; simpl; [|reflexivity].
  rewrite append_rows.
  destruct (for_each append_row data (v1, [])) as [[v2 os]|e]; reflexivity.
Qed.

Lemma load_from_bound v data :
  all_bound v -> load_from v data <> Raise UnboundLocalError.
Proof.
  revert v. induction data as [|r data IH]; intros v Hv; [discriminate|].
  rewrite load_from_cons. pose proof (row_body_no_unbound r v Hv) as Hr.
  destruct (row_body r v) as [[v1 o]|e] eqn:E; simpl; [|congruence].
  pose proof (IH v1 (row_body_bound _ _ _ _ E)) as Hl.
  destruct (load_from v1 data); simpl; [discriminate|congruence].
Qed.

(** An unbound variable stops [load_data] on the first row or never. *)
Lemma load_data_unbound data :
  load_data data = Raise UnboundLocalError ->
  exists r rest, data = r :: rest /\ row_body r unbound = Raise UnboundLocalError.
Proof.
  destruct data as [|r rest]; [discriminate|].
  unfold load_data. rewrite load_from_cons. intros H.
  exists r, rest. split; [reflexivity|].
  destruct (row_body r unbound) as [[v1 o]|e] eqn:E; simpl in H;
    [|congruence].
  exfalso. apply (load_from_bound v1 rest (row_body_bound _ _ _ _ E)).
  destruct (load_from v1 rest); simpl in H; [discriminate|exact H].
Qed.

End Rows.

(** ** Span parsing *)

(** C3, as stated, fails: a row whose subject field has no [end_idx] is loaded
    without any exception when it follows a row that bound the variable, and
    stops [load_data] with [UnboundLocalError] when it comes first; a value that
    is no integer raises the built-in [ValueError], which carries no row id. *)
Lemma malformed_span_not_reported :
  contains (lit "end_idx") (subject_entity anna) = false /\
  load_data [kim; anna] = Ok [kim_row; anna_row] /\
  load_data [anna] = Raise UnboundLocalError /\
  load_data [kim; one] = Raise ValueError.
Proof. repeat split; vm_compute; reflexivity. Qed.

(** C3, amended. For a row both of whose type tags can be extracted, span
    parsing fails with Python's built-in [ValueError], which carries no row id
    (the code has no error class of its own), exactly when at a position the
    scan visits a key marker is followed (from 12 characters after the start of
    [start_idx], 10 after the start of [end_idx], up to the next comma) by text
    that is no integer. *)
Theorem span_parsing_errors (r : raw_row) (v : locals) (ts to : str) :
  entity_type (subject_entity r) = Ok ts ->
  entity_type (object_entity r) = Ok to ->
  row_body r v = Raise ValueError
  <-> clean (subject_entity r) (object_entity r) = false.
Proof.
  intros Hts Hto. split.
  - intros H. destruct (clean _ _) eqn:Hc; [exfalso|reflexivity].
    destruct (row_body_clean r v ts to Hts Hto Hc) as [E|(v' & o & E)];
      rewrite E in H; discriminate.
  - exact (row_body_dirty r v ts to Hts Hto).
Qed.

Lemma span_parsing_errors_witness :
  row_body one after_kim = Raise ValueError.
Proof.
  apply (span_parsing_errors one after_kim (lit "PER") (lit "ORG"));
    vm_compute; reflexivity.
Defined.

(** ** Spans that intersect *)

Lemma insert_pair_len {A} (s o c : list A) (i j : Z) :
  0 <= i <= j -> j <= len s ->
  len (upto s i ++ o ++ sub s i j ++ c ++ from s j) = len s + len o + len c.
Proof.
  intros Hij Hj.
  destruct (cut3 s i j Hij Hj) as (p & q & t & -> & Hp & Hq).
  rewrite (upto_app p) by lia.
  rewrite (sub_app p q t) by lia.
  assert (E : from (p ++ q ++ t) j = t).
  { rewrite app_assoc. apply from_app. rewrite len_app. lia. }
  rewrite E, !len_app. lia.
Qed.

(** The marked sentence is 22 characters longer than the sentence, whether the
    spans intersect or not. *)
Lemma mark_len (z : str) (a b c d : Z) :
  valid_span z (a, b) -> valid_span z (c, d) ->
  len (mark z (a, b) (c, d)) = len z + 22.
Proof.
  unfold valid_span, mark. cbn [fst snd]. intros (Ha & Hab & Hb) (Hc & Hcd & Hd).
  assert (L5 : forall k, k = SUB \/ k = OBJ -> len (tok k) = 5)
    by (intros k [->| ->]; reflexivity).
  assert (L6 : forall k, k = ESUB \/ k = EOBJ -> len (tok k) = 6)
    by (intros k [->| ->]; reflexivity).
  change (lit "[SUB]") with (tok SUB). change (lit "[/SUB]") with (tok ESUB).
  change (lit "[OBJ]") with (tok OBJ). change (lit "[/OBJ]") with (tok EOBJ).
  destruct (a <? c).
  - set (z1 := upto z a ++ _ ++ sub z a (b + 1) ++ _ ++ from z (b + 1)).
    assert (H1 : len z1 = len z + 11).
    { unfold z1. rewrite insert_pair_len, L5, L6 by auto with lia. lia. }
    rewrite insert_pair_len, H1, L5, L6 by auto with lia. lia.
  - set (z1 := upto z c ++ _ ++ sub z c (d + 1) ++ _ ++ from z (d + 1)).
    assert (H1 : len z1 = len z + 11).
    { unfold z1. rewrite insert_pair_len, L5, L6 by auto with lia. lia. }
    rewrite insert_pair_len, H1, L5, L6 by auto with lia. lia.
Qed.

(** C4, as stated, fails: the spans 1..3 and 2..4 intersect and the row is
    annotated all the same, the object markers cutting into [[/SUB]]. *)
Lemma overlapping_spans_not_rejected :
  intersect (df_subject_idx overlap_row) (df_object_idx overlap_row) /\
  load_data [overlap] = Ok [overlap_row].
Proof.
  split; [unfold intersect; simpl; lia|vm_compute; reflexivity].
Qed.

(** C4, amended. For a row whose subject and object character ranges intersect
    (each lying within the sentence), annotation raises no error: once the type
    tags and the offsets are parsed the row is annotated like any other, and
    its marked sentence is the sentence with 22 marker characters added. *)
Theorem overlapping_spans_are_marked (r : raw_row) (v v1 : locals)
    (ts to : str) (a b c d : Z) :
  entity_type (subject_entity r) = Ok ts ->
  entity_type (object_entity r) = Ok to ->
  scan (subject_entity r) (object_entity r) v = Ok v1 ->
  sub_start v1 = Some a -> sub_end v1 = Some b ->
  obj_start v1 = Some c -> obj_end v1 = Some d ->
  valid_span (sentence r) (a, b) ->
  valid_span (sentence r) (c, d) ->
  intersect (a, b) (c, d) ->
  exists o,
    row_body r v = Ok (v1, o) /\
    df_subject_idx o = (a, b) /\ df_object_idx o = (c, d) /\
    df_sentence o = mark (sentence r) (a, b) (c, d) /\
    len (df_sentence o) = len (sentence r) + 22.
Proof.
  intros Hts Hto Hscan Ha Hb Hc Hd Hs Ho _.
  eexists. split; [eapply row_body_scanned; eauto|].
  cbn [df_subject_idx df_object_idx df_sentence].
  repeat split. apply mark_len; assumption.
Qed.

Lemma overlapping_spans_are_marked_witness :
  exists o,
    row_body overlap unbound
    = Ok ({| sub_start := Some 1; sub_end := Some 3;
             obj_start := Some 2; obj_end := Some 4 |}, o) /\
    df_subject_idx o = (1, 3) /\ df_object_idx o = (2, 4) /\
    df_sentence o = mark (sentence overlap) (1, 3) (2, 4) /\
    len (df_sentence o) = len (sentence overlap) + 22.
Proof.
  apply (overlapping_spans_are_marked overlap unbound _ (lit "PER") (lit "ORG")).
  - vm_compute. reflexivity.
  - vm_compute. reflexivity.
  - vm_compute. reflexivity.
  - reflexivity.
  - reflexivity.
  - reflexivity.
  - reflexivity.
  - unfold valid_span, len. simpl. lia.
  - unfold valid_span, len. simpl. lia.
  - unfold intersect. simpl. lia.
Defined.

(** ** The scenario *)

(** C5. For the sentence "Kim works at Acme" with subject Kim at 0..2 of type
    PER and object Acme at 13..16 of type ORG, in the Python-repr field format,
    [load_data] gives the marked sentence
    "[SUB]Kim[/SUB] works at [OBJ]Acme[/OBJ]". *)
Theorem kim_works_at_acme :
  load_data [kim] = Ok [kim_row] /\
  df_sentence kim_row = lit "[SUB]Kim[/SUB] works at [OBJ]Acme[/OBJ]".
Proof. split; vm_compute; reflexivity. Qed.

(** ** The range of the scan and the life of the offset variables *)

(** C9. The scan visits the positions below the length of the subject field
    only, for both fields: when a key of the object field is found at none of
    these positions (the field being longer, with its keys further right), the
    row's object offset is the value the variable had before the row, not one
    read from the row's own object field. *)
Theorem object_keys_beyond_subject_length (r : raw_row) (v v' : locals)
    (o : df_row) :
  row_body r v = Ok (v', o) ->
  (missing at_start_idx (object_entity r) (len (subject_entity r)) = true ->
   obj_start v = Some (df_object_idx o).1) /\
  (missing at_end_idx (object_entity r) (len (subject_entity r)) = true ->
   obj_end v = Some (df_object_idx o).2).
Proof.
  intros H. destruct (row_body_ok _ _ _ _ H)
    as (ts & to & a & b & c & d & _ & _ & Hscan & _ & _ & Hc & Hd & ->).
  cbn [df_object_idx fst snd]. split; intros Hm.
  - rewrite <- Hc. symmetry. exact (scan_keeps_obj_start _ _ _ _ Hscan Hm).
  - rewrite <- Hd. symmetry. exact (scan_keeps_obj_end _ _ _ _ Hscan Hm).
Qed.

Lemma object_keys_beyond_subject_length_witness :
  (len (subject_entity bo) < len (object_entity bo) /\
   contains (lit "start_idx") (object_entity bo) = true /\
   contains (lit "end_idx") (object_entity bo) = true) /\
  obj_start after_kim = Some (df_object_idx bo_row).1 /\
  obj_end after_kim = Some (df_object_idx bo_row).2.
Proof.
  split; [repeat split; vm_compute; reflexivity|].
  destruct (object_keys_beyond_subject_length bo after_kim
              {| sub_start := Some 0; sub_end := Some 1;
                 obj_start := Some 13; obj_end := Some 16 |} bo_row)
    as [H1 H2]; [vm_compute; reflexivity|].
  split; [apply H1|apply H2]; vm_compute; reflexivity.
Defined.

(** C10. The offset variables live across the rows: after a row that was
    processed, a row of which a key marker is missing at the scanned positions
    (its type tags and its other values being readable) raises nothing; it
    gets an annotated row whose offset is the one of the earlier row.  The same
    row stops [load_data] with [UnboundLocalError] when nothing was bound
    before it, and this error can only come from the first row of a table. *)
Theorem offsets_persist_across_rows (v v1 : locals) (r1 r2 : raw_row)
    (o1 : df_row) (ts to : str) :
  let x := subject_entity r2 in
  let y := object_entity r2 in
  row_body r1 v = Ok (v1, o1) ->
  entity_type x = Ok ts ->
  entity_type y = Ok to ->
  clean x y = true ->
  missing at_start_idx x (len x) || missing at_end_idx x (len x)
  || missing at_start_idx y (len x) || missing at_end_idx y (len x) = true ->
  (exists v2 o2,
     row_body r2 v1 = Ok (v2, o2) /\
     load_from v [r1; r2] = Ok [o1; o2] /\
     (missing at_start_idx x (len x) = true ->
      (df_subject_idx o2).1 = (df_subject_idx o1).1) /\
     (missing at_end_idx x (len x) = true ->
      (df_subject_idx o2).2 = (df_subject_idx o1).2) /\
     (missing at_start_idx y (len x) = true ->
      (df_object_idx o2).1 = (df_object_idx o1).1) /\
     (missing at_end_idx y (len x) = true ->
      (df_object_idx o2).2 = (df_object_idx o1).2)) /\
  row_body r2 unbound = Raise UnboundLocalError /\
  (forall data, load_from v1 data <> Raise UnboundLocalError) /\
  (forall data, load_data data = Raise UnboundLocalError ->
     exists r rest, data = r :: rest /\
                    row_body r unbound = Raise UnboundLocalError).
Proof.
  intros x y H1 Hts Hto Hclean Hmiss.
  pose proof (row_body_bound _ _ _ _ H1) as Hb1.
  split; [|split; [|split]].
  - destruct (row_body_runs r2 v1 ts to Hts Hto Hclean Hb1) as (v2 & o2 & H2).
    exists v2, o2. split; [exact H2|]. split.
    { rewrite load_from_cons, H1. cbn [bind fst snd].
      rewrite load_from_cons, H2. reflexivity. }
    destruct (row_body_ok _ _ _ _ H1)
      as (? & ? & a1 & b1 & c1 & d1 & _ & _ & _ & Ha1 & Hb1' & Hc1 & Hd1 & ->).
    destruct (row_body_ok _ _ _ _ H2)
      as (? & ? & a2 & b2 & c2 & d2 & _ & _ & Hscan & Ha2 & Hb2 & Hc2 & Hd2 & ->).
    cbn [df_subject_idx df_object_idx fst snd].
    repeat split; intros Hm.
    + pose proof (scan_keeps_sub_start _ _ _ _ Hscan Hm). congruence.
    + pose proof (scan_keeps_sub_end _ _ _ _ Hscan Hm). congruence.
    + pose proof (scan_keeps_obj_start _ _ _ _ Hscan Hm). congruence.
    + pose proof (scan_keeps_obj_end _ _ _ _ Hscan Hm). congruence.
  - destruct (row_body_clean r2 unbound ts to Hts Hto Hclean)
      as [H|(v2 & o2 & H2)]; [exact H|exfalso].
    destruct (row_body_ok _ _ _ _ H2)
      as (? & ? & a2 & b2 & c2 & d2 & _ & _ & Hscan & Ha2 & Hb2 & Hc2 & Hd2 & _).
    fold x y in Hscan.
    repeat (apply orb_true_iff in Hmiss as [Hmiss|Hmiss]).
    + pose proof (scan_keeps_sub_start _ _ _ _ Hscan Hmiss) as E.
      rewrite Ha2 in E. discriminate.
    + pose proof (scan_keeps_sub_end _ _ _ _ Hscan Hmiss) as E.
      rewrite Hb2 in E. discriminate.
    + pose proof (scan_keeps_obj_start _ _ _ _ Hscan Hmiss) as E.
      rewrite Hc2 in E. discriminate.
    + pose proof (scan_keeps_obj_end _ _ _ _ Hscan Hmiss) as E.
      rewrite Hd2 in E. discriminate.
  - intros data. exact (load_from_bound v1 data Hb1).
  - exact load_data_unbound.
Qed.

Lemma offsets_persist_across_rows_witness :
  (exists v2 o2,
     row_body anna after_kim = Ok (v2, o2) /\
     load_from unbound [kim; anna] = Ok [kim_row; o2] /\
     (df_subject_idx o2).2 = (df_subject_idx kim_row).2) /\
  row_body anna unbound = Raise UnboundLocalError.
Proof.
  destruct (offsets_persist_across_rows unbound after_kim kim anna kim_row
              (lit "PER") (lit "ORG"))
    as ((v2 & o2 & H2 & Hl & _ & He & _) & Hu & _);
    try (vm_compute; reflexivity).
  split; [|exact Hu].
  exists v2, o2. repeat split; [exact H2|exact Hl|].
  apply He. vm_compute. reflexivity.
Defined.

(** ** The decoding check of [tokenized_dataset] *)

Section DecodeCheck.
Context `{Tokenizer T}.

Lemma index_inside {A} (l : list A) (i : nat) :
  (i < length l)%nat -> exists a, index l (Z.of_nat i) = Ok a.
Proof.
  intros Hi. unfold index.
  rewrite (proj2 (Z.ltb_ge (Z.of_nat i) 0)) by lia.
  rewrite (proj2 (Z.ltb_ge (Z.of_nat i) 0)) by lia.
  rewrite Nat2Z.id. destruct (nth_error l i) eqn:E; [eauto|].
  apply nth_error_None in E. lia.
Qed.

Lemma index_outside {A} (l : list A) (i : nat) :
  (length l <= i)%nat -> index l (Z.of_nat i) = Raise IndexError.
Proof.
  intros Hi. unfold index.
  rewrite (proj2 (Z.ltb_ge (Z.of_nat i) 0)) by lia.
  rewrite (proj2 (Z.ltb_ge (Z.of_nat i) 0)) by lia.
  rewrite Nat2Z.id, (proj2 (nth_error_None l i)) by lia. reflexivity.
Qed.

Variables (tokenizer : T) (sentences : list str).
Hypothesis encode_ok : forall s, fails (encode tokenizer s) = false.
Hypothesis decode_ok : forall e, fails (decode tokenizer e) = false.

Lemma check_decoded_inside (i : nat) printed :
  (i < length sentences)%nat ->
  exists out, check_decoded tokenizer sentences (Z.of_nat i) printed = Ok out.
Proof.
  intros Hi. unfold check_decoded.
  destruct (index_inside sentences i Hi) as (s & ->). simpl.
  pose proof (encode_ok s) as He.
  destruct (encode tokenizer s) as [e|]; [|discriminate]. simpl.
  pose proof (decode_ok e) as Hd.
  destruct (decode tokenizer e) as [d|]; [|discriminate]. simpl. eauto.
Qed.

Lemma check_decoded_outside (i : nat) printed :
  (length sentences <= i)%nat ->
  check_decoded tokenizer sentences (Z.of_nat i) printed = Raise IndexError.
Proof.
  intros Hi. unfold check_decoded. rewrite index_outside by exact Hi. reflexivity.
Qed.

Lemma check_decoded_run (start n : nat) printed :
  (start + n <= length sentences)%nat ->
  exists out, for_each (check_decoded tokenizer sentences)
                (map Z.of_nat (seq start n)) printed = Ok out.
Proof.
  revert start printed. induction n as [|n IH]; intros start printed Hn; simpl.
  - eauto.
  - destruct (check_decoded_inside start printed) as (out & ->); [lia|].
    simpl. apply IH. lia.
Qed.

(** The loop over [range(10)] on fewer than ten sentences. *)
Lemma check_decoded_short :
  (length sentences < 10)%nat ->
  for_each (check_decoded tokenizer sentences) (range 10) [] = Raise IndexError.
Proof.
  intros Hn. unfold range. change (Z.to_nat 10) with 10%nat.
  replace 10%nat with (length sentences + S (9 - length sentences))%nat by lia.
  rewrite seq_app, map_app, for_each_app.
  destruct (check_decoded_run 0 (length sentences) []) as (out & ->); [lia|].
  simpl. rewrite check_decoded_outside by lia. reflexivity.
Qed.

End DecodeCheck.

(** With ten rows or more, and a tokenizer whose methods do not raise, the
    batch is returned. *)
Lemma tokenized_dataset_returns `{Tokenizer T} (dataset : list df_row)
    (tokenizer tokenizer' : T) (b : batch) :
  add_special_tokens special_tokens_dict tokenizer = Ok tokenizer' ->
  call tokenizer' (map df_sentence dataset) = Ok b ->
  (forall s, fails (encode tokenizer' s) = false) ->
  (forall e, fails (decode tokenizer' e) = false) ->
  (10 <= length dataset)%nat ->
  exists printed, tokenized_dataset dataset tokenizer = Ok (tokenizer', printed, b).
Proof.
  intros Hadd Hcall Henc Hdec Hn. unfold tokenized_dataset.
  rewrite Hadd. cbn [bind]. rewrite Hcall. cbn [bind].
  destruct (check_decoded_run tokenizer' (map df_sentence dataset) Henc Hdec
              0 10 []) as (out & Hout); [rewrite length_map; lia|].
  unfold range. change (Z.to_nat 10) with 10%nat. rewrite Hout. cbn [bind]. eauto.
Qed.

(** C6, on the code: the decoding check is not fail-open.  It indexes the first
    ten sentences whatever the number of rows, so that on a dataset of fewer
    than ten rows [tokenized_dataset] stops with [IndexError] instead of
    returning the batch it has already encoded, even with a tokenizer none of
    whose methods raises. *)
Theorem decode_check_aborts_short_dataset `{Tokenizer T} (dataset : list df_row)
    (tokenizer tokenizer' : T) (b : batch) :
  add_special_tokens special_tokens_dict tokenizer = Ok tokenizer' ->
  call tokenizer' (map df_sentence dataset) = Ok b ->
  (forall s, fails (encode tokenizer' s) = false) ->
  (forall e, fails (decode tokenizer' e) = false) ->
  (length dataset < 10)%nat ->
  tokenized_dataset dataset tokenizer = Raise IndexError.
Proof.
  intros Hadd Hcall Henc Hdec Hn. unfold tokenized_dataset.
  rewrite Hadd. cbn [bind]. rewrite Hcall. cbn [bind].
  rewrite (check_decoded_short tokenizer' (map df_sentence dataset) Henc Hdec)
    by (rewrite length_map; exact Hn).
  reflexivity.
Qed.

Lemma decode_check_aborts_short_dataset_witness :
  tokenized_dataset [kim_row] tt = Raise IndexError.
Proof.
  eapply (decode_check_aborts_short_dataset [kim_row] tt tt).
  - reflexivity.
  - reflexivity.
  - intros s. reflexivity.
  - intros e. reflexivity.
  - simpl. lia.
Defined.

(** ** [label_to_num] *)

Section Labels.
Variable dict_label_to_num : gmap string Z.

Lemma label_loop (label : list string) (num_label : list Z) :
  for_each (fun v num_label =>
              match dict_label_to_num !! v with
              | Some n => Ok (num_label ++ [n])
              | None => Raise (KeyError v)
              end) label num_label
  = (ns <- lookup_all dict_label_to_num label ;; Ok (num_label ++ ns)).
Proof.
  revert num_label. induction label as [|v label IH]; intros num_label; simpl.
  - rewrite app_nil_r. reflexivity.
  - destruct (dict_label_to_num !! v) as [n|]; simpl; [|reflexivity].
    rewrite IH. destruct (lookup_all dict_label_to_num label); simpl; [|reflexivity].
    rewrite <- app_assoc. reflexivity.
Qed.

Lemma label_to_num_lookup_all (label : list string) :
  label_to_num dict_label_to_num label = lookup_all dict_label_to_num label.
Proof.
  unfold label_to_num. rewrite label_loop.
  destruct (lookup_all dict_label_to_num label); reflexivity.
Qed.

Lemma lookup_all_raises (label : list string) (e : exn) :
  lookup_all dict_label_to_num label = Raise e ->
  exists v, e = KeyError v /\ v ∈ label /\ dict_label_to_num !! v = None.
Proof.
  induction label as [|v label IH]; simpl; [discriminate|].
  destruct (dict_label_to_num !! v) as [n|] eqn:E.
  - destruct (lookup_all dict_label_to_num label) as [ns|e']; simpl; [discriminate|].
    intros [= <-]. destruct (IH eq_refl) as (w & -> & Hw & Hn).
    exists w. repeat split; [right; exact Hw|exact Hn].
  - intros [= <-]. exists v. repeat split; [left|exact E].
Qed.

Lemma lookup_all_returns (label : list string) (nums : list Z) :
  lookup_all dict_label_to_num label = Ok nums ->
  Forall2 (fun v n => dict_label_to_num !! v = Some n) label nums.
Proof.
  revert nums. induction label as [|v label IH]; simpl; intros nums.
  - intros [= <-]. constructor.
  - destruct (dict_label_to_num !! v) as [n|] eqn:E; [|discriminate].
    destruct (lookup_all dict_label_to_num label) as [ns|]; simpl; [|discriminate].
    intros [= <-]. constructor; [exact E|apply IH; reflexivity].
Qed.

End Labels.

(** C7. [label_to_num] raises exactly when some label of the list is absent
    from the table, the exception being the [KeyError] of the lookup (the
    document's UnknownLabelError) for an absent label; otherwise it returns
    the numbers of the labels in the order of the list. *)
Theorem label_to_num_spec (dict_label_to_num : gmap string Z)
    (label : list string) :
  ((exists e, label_to_num dict_label_to_num label = Raise e)
   <-> (exists v, v ∈ label /\ dict_label_to_num !! v = None)) /\
  (forall e, label_to_num dict_label_to_num label = Raise e ->
     exists v, e = KeyError v /\ v ∈ label /\ dict_label_to_num !! v = None) /\
  (forall nums, label_to_num dict_label_to_num label = Ok nums ->
     Forall2 (fun v n => dict_label_to_num !! v = Some n) label nums).
Proof.
  rewrite label_to_num_lookup_all. split; [split|split].
  - intros (e & He). destruct (lookup_all_raises _ _ _ He) as (v & _ & Hv).
    exists v. exact Hv.
  - intros (v & Hv & Hn).
    destruct (lookup_all dict_label_to_num label) as [nums|e] eqn:E; [|eauto].
    exfalso. pose proof (lookup_all_returns _ _ _ E) as HF.
    apply list_elem_of_lookup in Hv as (i & Hi).
    destruct (Forall2_lookup_l _ _ _ _ _ HF Hi) as (n & _ & Hn').
    congruence.
  - apply lookup_all_raises.
  - apply lookup_all_returns.
Qed.

Lemma label_to_num_spec_witness :
  label_to_num two_labels ["per:employee_of"; "no_relation"; "per:employee_of"]%string
  = Ok [6; 0; 6] /\
  (exists v, v ∈ ["no_relation"; "org:members"]%string /\ two_labels !! v = None).
Proof.
  split; [vm_compute; reflexivity|].
  apply (proj1 (label_to_num_spec two_labels ["no_relation"; "org:members"]%string)).
  eexists. vm_compute. reflexivity.
Defined.

(** * Further properties of the code *)

(** ** [load_data] as a whole *)

Section Table.
Implicit Types (data pre post : list raw_row) (df : list df_row) (v : locals).

Lemma load_from_nil v : load_from v [] = Ok [].
Proof. reflexivity. Qed.

(** A table in two parts: the second part starts with the locals as the first
    part leaves them. *)
Lemma load_from_app v pre post :
  load_from v (pre ++ post)
  = (s <- for_each append_row pre (v, []) ;;
     df <- load_from s.1 post ;; Ok (s.2 ++ df)).
Proof.
  unfold load_from. rewrite for_each_app.
  destruct (for_each append_row pre (v, [])) as [[v1 df1]|e]; [|reflexivity].
  cbn [bind fst snd]. rewrite append_rows.
  destruct (for_each append_row post (v1, [])) as [[v2 df2]|e]; reflexivity.
Qed.

Lemma load_from_state v pre df :
  load_from v pre = Ok df -> exists v1, for_each append_row pre (v, []) = Ok (v1, df).
Proof.
  unfold load_from.
  destruct (for_each append_row pre (v, [])) as [[v1 df1]|e]; [|discriminate].
  intros [= <-]. eauto.
Qed.

Lemma row_body_annotates r v v' o : row_body r v = Ok (v', o) -> annotates r o.
Proof.
  intros H. destruct (row_body_ok _ _ _ _ H)
    as (ts & to & a & b & c & d & Hts & Hto & _ & _ & _ & _ & _ & ->).
  unfold annotates. cbn. repeat split; assumption.
Qed.

Lemma load_from_annotates v data df :
  load_from v data = Ok df -> Forall2 annotates data df.
Proof.
  revert v df. induction data as [|r data IH]; intros v df.
  - intros [= <-]. constructor.
  - rewrite load_from_cons.
    destruct (row_body r v) as [[v1 o]|e] eqn:E; [|discriminate].
    cbn [bind fst snd].
    destruct (load_from v1 data) as [os|e] eqn:El; [|discriminate].
    intros [= <-]. constructor; [exact (row_body_annotates _ _ _ _ E)|].
    exact (IH v1 os El).
Qed.

End Table.

Lemma load_data_row_for_row_aux (data : list raw_row) (df : list df_row) :
  load_data data = Ok df ->
  map df_id df = map id data /\ map df_label df = map label data.
Proof.
  intros H. pose proof (load_from_annotates _ _ _ H) as HF. clear H.
  induction HF as [|r o data df (Hid & Hl & _) _ [IH1 IH2]]; [split; reflexivity|].
  simpl. rewrite Hid, Hl, IH1, IH2. split; reflexivity.
Qed.

(** X1. A table that [load_data] accepts comes back row for row: the data frame
    has one row for each row of the table, in the same order, with the row's
    id and label, and with sentence, entity texts and types computed from that
    row and the offsets recorded in it. *)
Theorem load_data_row_for_row (data : list raw_row) (df : list df_row) :
  load_data data = Ok df ->
  Forall2 annotates data df /\
  length df = length data /\
  map df_id df = map id data /\
  map df_label df = map label data.
Proof.
  intros H. pose proof (load_from_annotates _ _ _ H) as HF.
  split; [exact HF|]. split; [symmetry; exact (Forall2_length _ _ _ HF)|].
  clear H. induction HF as [|r o data df (Hid & Hl & _) _ [IH1 IH2]]; [split; reflexivity|].
  simpl. rewrite Hid, Hl, IH1, IH2. split; reflexivity.
Qed.

Lemma load_data_row_for_row_witness :
  Forall2 annotates [kim; anna] [kim_row; anna_row] /\
  length [kim_row; anna_row] = length [kim; anna] /\
  map df_id [kim_row; anna_row] = map id [kim; anna] /\
  map df_label [kim_row; anna_row] = map label [kim; anna].
Proof.
  apply (load_data_row_for_row [kim; anna] [kim_row; anna_row]).
  vm_compute. reflexivity.
Defined.

(** X2. [load_data] is decided from the left: when a table is accepted, every
    part of it that starts at the first row is accepted with the same rows;
    when a table is refused, every table that continues it is refused with the
    same exception, whatever the rows added. *)
Theorem load_data_prefix (pre post : list raw_row) :
  (forall df, load_data (pre ++ post) = Ok df ->
     load_data pre = Ok (take (length pre) df)) /\
  (forall e, load_data pre = Raise e -> load_data (pre ++ post) = Raise e).
Proof.
  unfold load_data. rewrite load_from_app. split.
  - intros df H.
    destruct (for_each append_row pre (unbound, [])) as [[v1 df1]|e] eqn:E;
      [|discriminate].
    cbn [bind fst snd] in H.
    destruct (load_from v1 post) as [df2|e]; [|discriminate].
    injection H as <-. unfold load_from. rewrite E. cbn [bind snd].
    assert (Hl : length df1 = length pre).
    { assert (Hp : load_from unbound pre = Ok df1)
        by (unfold load_from; rewrite E; reflexivity).
      symmetry. exact (Forall2_length _ _ _ (load_from_annotates _ _ _ Hp)). }
    rewrite <- Hl, take_app_length. reflexivity.
  - intros e H. unfold load_from in H.
    destruct (for_each append_row pre (unbound, [])) as [[v1 df1]|e'];
      [discriminate|].
    cbn [bind] in *. exact H.
Qed.

Lemma load_data_prefix_witness :
  load_data [kim] = Ok (take (length [kim]) [kim_row; anna_row]) /\
  load_data ([anna] ++ [kim]) = Raise UnboundLocalError.
Proof.
  split.
  - apply (proj1 (load_data_prefix [kim] [anna])). vm_compute. reflexivity.
  - apply (proj2 (load_data_prefix [anna] [kim])). vm_compute. reflexivity.
Defined.

(** ** The scan, variable by variable *)

Section Variable_.
Variables x y : str.

Lemma scan_body_ok_clean i v v' :
  scan_body x y i v = Ok v' -> bad_at x y i = false.
Proof.
  intros H. destruct (bad_at x y i) eqn:E; [|reflexivity].
  rewrite (scan_body_bad x y i v E) in H. discriminate.
Qed.

Lemma scan_ok_clean v v' : scan x y v = Ok v' -> clean x y = true.
Proof.
  intros H. destruct (clean x y) eqn:E; [reflexivity|].
  rewrite (scan_dirty x y v E) in H. discriminate.
Qed.

(** The four variables go through the loop independently of each other. *)
Lemma scan_on_scanned l v v' :
  for_each (scan_body x y) l v = Ok v' ->
  sub_start v' = scanned (at_start_idx x) (fun i => int_field x (i + 12)) l (sub_start v) /\
  sub_end v' = scanned (at_end_idx x) (fun i => int_field x (i + 10)) l (sub_end v) /\
  obj_start v' = scanned (at_start_idx y) (fun i => int_field y (i + 12)) l (obj_start v) /\
  obj_end v' = scanned (at_end_idx y) (fun i => int_field y (i + 10)) l (obj_end v).
Proof.
  revert v. induction l as [|i l IH]; intros v; simpl.
  - intros [= <-]. repeat split.
  - destruct (scan_body x y i v) as [v1|] eqn:E; [|discriminate].
    cbn [bind]. intros H. destruct (IH v1 H) as (H1 & H2 & H3 & H4).
    destruct (scan_body_ok x y i v v1 E) as (E1 & E2 & E3 & E4).
    unfold scanned in *. simpl. rewrite <- E1, <- E2, <- E3, <- E4. tauto.
Qed.

End Variable_.

Section Scanned.
Variables (hit : Z -> bool) (val : Z -> result Z).

Lemma scanned_app l1 l2 old :
  scanned hit val (l1 ++ l2) old = scanned hit val l2 (scanned hit val l1 old).
Proof. unfold scanned. apply fold_left_app. Qed.

Lemma scanned_missing l old :
  forallb (fun i => negb (hit i)) l = true -> scanned hit val l old = old.
Proof.
  revert old. induction l as [|i l IH]; intros old; simpl; [reflexivity|].
  rewrite andb_true_iff, negb_true_iff. intros [Hi Hl].
  unfold scanned in *. simpl. unfold after at 2. rewrite Hi. apply IH, Hl.
Qed.

(** A key that is found makes the value before the scan irrelevant. *)
Lemma scanned_found l old1 old2 :
  forallb (fun i => negb (hit i)) l = false ->
  scanned hit val l old1 = scanned hit val l old2.
Proof.
  revert old1 old2. induction l as [|i l IH]; intros old1 old2; simpl;
    [discriminate|].
  unfold scanned in *. simpl. unfold after at 2 4.
  destruct (hit i); simpl; [reflexivity|]. apply IH.
Qed.

(** The last position at which the key is found gives the value. *)
Lemma scanned_last l1 i l2 old :
  hit i = true -> forallb (fun j => negb (hit j)) l2 = true ->
  scanned hit val (l1 ++ i :: l2) old
  = match val i with Ok n => Some n | Raise _ => None end.
Proof.
  intros Hi Hl. rewrite scanned_app.
  change (scanned hit val (i :: l2) (scanned hit val l1 old))
    with (scanned hit val l2 (after (hit i) (val i) (scanned hit val l1 old))).
  rewrite (scanned_missing l2) by exact Hl.
  unfold after. rewrite Hi. reflexivity.
Qed.

End Scanned.

Section ScannedNone.
Variables (hit : Z -> bool) (val : Z -> result Z).

(** With readable values a variable is unbound after the scan only if it was
    unbound before and its key is not found. *)
Lemma scanned_none l old :
  (forall i, In i l -> hit i && fails (val i) = false) ->
  scanned hit val l old = None
  <-> old = None /\ forallb (fun i => negb (hit i)) l = true.
Proof.
  revert old. induction l as [|i l IH]; intros old Hok.
  - simpl. tauto.
  - change (scanned hit val (i :: l) old)
      with (scanned hit val l (after (hit i) (val i) old)).
    rewrite IH by (intros j Hj; apply Hok; right; exact Hj).
    pose proof (Hok i (or_introl eq_refl)) as Hi.
    simpl. unfold after. destruct (hit i); simpl in *.
    + destruct (val i); [|discriminate]. split; intros [? ?]; discriminate.
    + tauto.
Qed.

End ScannedNone.

Section RowCases.
Variables (x y : str) (v : locals).

Lemma clean_hits (key : str -> Z -> bool) (s : str) (k : Z) i :
  clean x y = true -> In i (range (len x)) ->
  (key = at_start_idx /\ k = 12 \/ key = at_end_idx /\ k = 10) ->
  (s = x \/ s = y) ->
  key s i && fails (int_field s (i + k)) = false.
Proof.
  unfold clean. rewrite forallb_forall. intros Hc Hi Hk Hs.
  specialize (Hc i Hi). apply negb_true_iff in Hc. unfold bad_at in Hc.
  rewrite !orb_false_iff in Hc. destruct Hc as [[[H1 H2] H3] H4].
  destruct Hk as [[-> ->]|[-> ->]], Hs as [->| ->]; assumption.
Qed.

(** The locals after the scan of a clean row. *)
Lemma scan_clean_scanned :
  clean x y = true ->
  scan x y v
  = Ok {| sub_start := scanned (at_start_idx x) (fun i => int_field x (i + 12))
                         (range (len x)) (sub_start v);
          sub_end := scanned (at_end_idx x) (fun i => int_field x (i + 10))
                       (range (len x)) (sub_end v);
          obj_start := scanned (at_start_idx y) (fun i => int_field y (i + 12))
                         (range (len x)) (obj_start v);
          obj_end := scanned (at_end_idx y) (fun i => int_field y (i + 10))
                       (range (len x)) (obj_end v) |}.
Proof.
  intros Hc. destruct (scan_clean x y v Hc) as (v' & H). rewrite H.
  destruct (scan_on_scanned x y _ _ _ H) as (H1 & H2 & H3 & H4).
  destruct v'. simpl in *. congruence.
Qed.

Lemma unbound_after_scan (key : str -> Z -> bool) (s : str) (k : Z) old :
  clean x y = true ->
  (key = at_start_idx /\ k = 12 \/ key = at_end_idx /\ k = 10) ->
  (s = x \/ s = y) ->
  scanned (key s) (fun i => int_field s (i + k)) (range (len x)) old = None
  <-> old = None /\ missing key s (len x) = true.
Proof.
  intros Hc Hk Hs. apply scanned_none. intros i Hi.
  exact (clean_hits key s k i Hc Hi Hk Hs).
Qed.

End RowCases.

Lemma is_unbound_none o : is_unbound o = true <-> o = None.
Proof. destruct o; simpl; split; congruence. Qed.

Lemma lacking_after_scan (v : locals) (x y : str) :
  clean x y = true ->
  lacking v x y = true
  <-> scanned (at_start_idx x) (fun i => int_field x (i + 12))
        (range (len x)) (sub_start v) = None
      \/ scanned (at_end_idx x) (fun i => int_field x (i + 10))
           (range (len x)) (sub_end v) = None
      \/ scanned (at_start_idx y) (fun i => int_field y (i + 12))
           (range (len x)) (obj_start v) = None
      \/ scanned (at_end_idx y) (fun i => int_field y (i + 10))
           (range (len x)) (obj_end v) = None.
Proof.
  intros Hc. unfold lacking.
  rewrite !orb_true_iff, !andb_true_iff, !is_unbound_none.
  pose proof (unbound_after_scan x y at_start_idx x 12 (sub_start v) Hc
                (or_introl (conj eq_refl eq_refl)) (or_introl eq_refl)) as H1.
  pose proof (unbound_after_scan x y at_end_idx x 10 (sub_end v) Hc
                (or_intror (conj eq_refl eq_refl)) (or_introl eq_refl)) as H2.
  pose proof (unbound_after_scan x y at_start_idx y 12 (obj_start v) Hc
                (or_introl (conj eq_refl eq_refl)) (or_intror eq_refl)) as H3.
  pose proof (unbound_after_scan x y at_end_idx y 10 (obj_end v) Hc
                (or_intror (conj eq_refl eq_refl)) (or_intror eq_refl)) as H4.
  simpl in H1, H2, H3, H4. rewrite H1, H2, H3, H4. tauto.
Qed.

Ltac outcome_case :=
  repeat match goal with
         | |- _ /\ _ => split
         | |- _ <-> _ => split
         end;
  try (intros e He; injection He as <-; tauto);
  try (intros (? & ? & ?); discriminate);
  try (intros (? & ?); discriminate);
  try (intros; discriminate);
  try (intros; repeat split; reflexivity);
  try (intros; eexists _, _; reflexivity).

(** X3. What a row does is decided by three tests, in this order: it stops
    with [IndexError] exactly when a type tag cannot be taken out of a field;
    else with [ValueError] exactly when some key found by the scan has a value
    that is no integer; else with [UnboundLocalError] exactly when some offset
    variable has no value from an earlier row and its key is found at no
    scanned position; and it is annotated exactly when none of the three
    happens.  No other exception comes out of a row. *)
Theorem row_body_outcomes (r : raw_row) (v : locals) :
  let x := subject_entity r in
  let y := object_entity r in
  (row_body r v = Raise IndexError <-> tags_found x y = false) /\
  (row_body r v = Raise ValueError
   <-> tags_found x y = true /\ clean x y = false) /\
  (row_body r v = Raise UnboundLocalError
   <-> tags_found x y = true /\ clean x y = true /\ lacking v x y = true) /\
  ((exists v' o, row_body r v = Ok (v', o))
   <-> tags_found x y = true /\ clean x y = true /\ lacking v x y = false) /\
  (forall e, row_body r v = Raise e ->
     e = IndexError \/ e = ValueError \/ e = UnboundLocalError).
Proof.
  intros x y. unfold row_body, tags_found. fold x y.
  destruct (entity_type x) as [ts|e1] eqn:E1.
  2:{ apply entity_type_raises in E1 as ->. simpl. outcome_case. }
  destruct (entity_type y) as [to|e2] eqn:E2.
  2:{ apply entity_type_raises in E2 as ->. simpl. outcome_case. }
  cbn [bind fails negb andb].
  destruct (clean x y) eqn:Hc.
  2:{ rewrite (scan_dirty x y v Hc). simpl. outcome_case. }
  pose proof (lacking_after_scan v x y Hc) as Hl.
  pose proof (scan_clean_scanned x y v Hc) as Hs. rewrite Hs.
  cbn [bind sub_start sub_end obj_start obj_end].
  destruct (scanned (at_start_idx x) _ _ _) as [a|];
    [|assert (lacking v x y = true) as -> by (apply Hl; tauto); simpl;
      outcome_case].
  destruct (scanned (at_end_idx x) _ _ _) as [b|];
    [|assert (lacking v x y = true) as -> by (apply Hl; tauto); simpl;
      outcome_case].
  destruct (scanned (at_start_idx y) _ _ _) as [c|];
    [|assert (lacking v x y = true) as -> by (apply Hl; tauto); simpl;
      outcome_case].
  destruct (scanned (at_end_idx y) _ _ _) as [d|];
    [|assert (lacking v x y = true) as -> by (apply Hl; tauto); simpl;
      outcome_case].
  assert (lacking v x y = false) as ->.
  { destruct (lacking v x y); [|reflexivity].
    destruct (proj1 Hl eq_refl) as [?|[?|[?|?]]]; discriminate. }
  simpl. outcome_case.
Qed.

Lemma row_body_outcomes_witness :
  row_body anna unbound = Raise UnboundLocalError /\
  (exists v' o, row_body anna after_kim = Ok (v', o)) /\
  row_body one after_kim = Raise ValueError /\
  row_body {| id := 5; sentence := []; subject_entity := lit "{}";
              object_entity := lit "{}"; label := "" |} after_kim
  = Raise IndexError.
Proof.
  split; [|split; [|split]].
  - apply (proj1 (proj2 (proj2 (row_body_outcomes anna unbound)))).
    vm_compute. repeat split.
  - apply (proj1 (proj2 (proj2 (proj2 (row_body_outcomes anna after_kim))))).
    vm_compute. repeat split.
  - apply (proj1 (proj2 (row_body_outcomes one after_kim))).
    vm_compute. repeat split.
  - apply (row_body_outcomes _ after_kim). vm_compute. reflexivity.
Defined.

(** ** Rows that carry all four keys *)

Lemma complete_found (x y : str) :
  complete x y = true ->
  missing at_start_idx x (len x) = false /\ missing at_end_idx x (len x) = false /\
  missing at_start_idx y (len x) = false /\ missing at_end_idx y (len x) = false.
Proof.
  unfold complete. rewrite !andb_true_iff, !negb_true_iff. tauto.
Qed.

Lemma complete_scan (x y : str) (v1 v2 : locals) :
  complete x y = true -> scan x y v1 = scan x y v2.
Proof.
  intros Hc. destruct (complete_found x y Hc) as (H1 & H2 & H3 & H4).
  destruct (clean x y) eqn:E.
  - rewrite !scan_clean_scanned by exact E. unfold missing in *. f_equal.
    f_equal; apply scanned_found; assumption.
  - rewrite !scan_dirty by exact E. reflexivity.
Qed.

(** X4. A row in which each of the four keys is found at a scanned position
    does not depend on the rows before it: whatever the offset variables hold
    when the row is reached, the row gives the same result, exception or
    annotated row, and leaves the same values in the variables. *)
Theorem complete_row_ignores_locals (r : raw_row) (v1 v2 : locals) :
  complete (subject_entity r) (object_entity r) = true ->
  row_body r v1 = row_body r v2.
Proof.
  intros Hc. unfold row_body.
  rewrite (complete_scan _ _ v1 v2 Hc). reflexivity.
Qed.

Lemma complete_row_ignores_locals_witness :
  row_body kim unbound = row_body kim after_kim.
Proof.
  apply (complete_row_ignores_locals kim unbound after_kim).
  vm_compute. reflexivity.
Defined.

Lemma load_from_complete (v1 v2 : locals) (r : raw_row) (data : list raw_row) :
  complete (subject_entity r) (object_entity r) = true ->
  load_from v1 (r :: data) = load_from v2 (r :: data).
Proof.
  intros Hc. rewrite !load_from_cons. unfold row_body.
  rewrite (complete_scan _ _ v1 v2 Hc). reflexivity.
Qed.

(** X5. A table can be cut in front of any row that carries all four keys:
    loading the two parts separately and putting the results together is
    loading the whole table. *)
Theorem load_data_in_parts (pre : list raw_row) (r : raw_row) (post : list raw_row) :
  complete (subject_entity r) (object_entity r) = true ->
  load_data (pre ++ r :: post)
  = (df1 <- load_data pre ;; df2 <- load_data (r :: post) ;; Ok (df1 ++ df2)).
Proof.
  intros Hc. unfold load_data. rewrite load_from_app. unfold load_from at 2.
  destruct (for_each append_row pre (unbound, [])) as [[v1 df1]|e]; [|reflexivity].
  cbn [bind fst snd]. rewrite (load_from_complete v1 unbound r post Hc).
  reflexivity.
Qed.

Lemma load_data_in_parts_witness :
  load_data ([anna] ++ kim :: [anna])
  = (df1 <- load_data [anna] ;; df2 <- load_data (kim :: [anna]) ;;
     Ok (df1 ++ df2)) /\
  load_data ([kim; anna] ++ kim :: []) = Ok [kim_row; anna_row; kim_row].
Proof.
  split.
  - apply (load_data_in_parts [anna] kim [anna]). vm_compute. reflexivity.
  - rewrite (load_data_in_parts [kim; anna] kim []); vm_compute; reflexivity.
Defined.

(** ** Which occurrence of a key counts *)

Lemma range_split (n i : Z) :
  0 <= i < n ->
  exists l2, range n = range i ++ i :: l2 /\ forall j, In j l2 -> i < j < n.
Proof.
  intros Hi. unfold range.
  exists (map Z.of_nat (seq (S (Z.to_nat i)) (Z.to_nat n - S (Z.to_nat i)))).
  split.
  - replace (Z.to_nat n) with (Z.to_nat i + S (Z.to_nat n - S (Z.to_nat i)))%nat
      at 1 by lia.
    rewrite seq_app, map_app. simpl. rewrite Z2Nat.id by lia. reflexivity.
  - intros j Hj. apply in_map_iff in Hj as (k & <- & Hk).
    apply in_seq in Hk. lia.
Qed.

Lemma scanned_last_found (key : str -> Z -> bool) (s : str) (val : Z -> result Z)
    (n i : Z) (old : option Z) :
  last_found key s n i ->
  scanned (key s) val (range n) old
  = match val i with Ok m => Some m | Raise _ => None end.
Proof.
  intros (Hi & Hhit & Hlast).
  destruct (range_split n i Hi) as (l2 & -> & Hl2).
  apply scanned_last; [exact Hhit|].
  apply forallb_forall. intros j Hj. apply negb_true_iff, Hlast, Hl2, Hj.
Qed.

(** X6. When a key is found at several scanned positions the last one counts:
    after the scan of a row each offset variable holds the integer read at the
    last scanned position of its key, whatever it held before. *)
Theorem scan_takes_last_occurrence (x y : str) (v v' : locals) :
  scan x y v = Ok v' ->
  (forall i, last_found at_start_idx x (len x) i ->
     exists n, int_field x (i + 12) = Ok n /\ sub_start v' = Some n) /\
  (forall i, last_found at_end_idx x (len x) i ->
     exists n, int_field x (i + 10) = Ok n /\ sub_end v' = Some n) /\
  (forall i, last_found at_start_idx y (len x) i ->
     exists n, int_field y (i + 12) = Ok n /\ obj_start v' = Some n) /\
  (forall i, last_found at_end_idx y (len x) i ->
     exists n, int_field y (i + 10) = Ok n /\ obj_end v' = Some n).
Proof.
  intros H. pose proof (scan_ok_clean x y v v' H) as Hc.
  destruct (scan_on_scanned x y _ _ _ H) as (H1 & H2 & H3 & H4).
  assert (Hval : forall key s k i,
             (key = at_start_idx /\ k = 12 \/ key = at_end_idx /\ k = 10) ->
             (s = x \/ s = y) ->
             last_found key s (len x) i ->
             exists n, int_field s (i + k) = Ok n).
  { intros key s k i Hk Hs (Hi & Hhit & _).
    assert (Hin : In i (range (len x))).
    { unfold range. apply in_map_iff. exists (Z.to_nat i).
      split; [lia|]. apply in_seq. lia. }
    pose proof (clean_hits x y key s k i Hc Hin Hk Hs) as Hb.
    rewrite Hhit in Hb. simpl in Hb. apply pass_int_field, Hb. }
  repeat split; intros i Hi.
  - destruct (Hval at_start_idx x 12 i) as (n & Hn); auto.
    exists n. split; [exact Hn|].
    rewrite H1, (scanned_last_found _ _ _ _ i _ Hi), Hn. reflexivity.
  - destruct (Hval at_end_idx x 10 i) as (n & Hn); auto.
    exists n. split; [exact Hn|].
    rewrite H2, (scanned_last_found _ _ _ _ i _ Hi), Hn. reflexivity.
  - destruct (Hval at_start_idx y 12 i) as (n & Hn); auto.
    exists n. split; [exact Hn|].
    rewrite H3, (scanned_last_found _ _ _ _ i _ Hi), Hn. reflexivity.
  - destruct (Hval at_end_idx y 10 i) as (n & Hn); auto.
    exists n. split; [exact Hn|].
    rewrite H4, (scanned_last_found _ _ _ _ i _ Hi), Hn. reflexivity.
Qed.

Lemma last_found_check (key : str -> Z -> bool) (s : str) (n i : Z) :
  0 <= i < n -> key s i = true ->
  forallb (fun j => negb (key s j) || (j <=? i)) (range n) = true ->
  last_found key s n i.
Proof.
  intros Hi Hhit Hall. repeat split; try lia; [exact Hhit|].
  intros j Hj. rewrite forallb_forall in Hall.
  assert (Hin : In j (range n)).
  { unfold range. apply in_map_iff. exists (Z.to_nat j).
    split; [lia|]. apply in_seq. lia. }
  specialize (Hall j Hin). apply orb_true_iff in Hall as [H|H].
  - apply negb_true_iff, H.
  - apply Z.leb_le in H. lia.
Qed.

Lemma scan_takes_last_occurrence_witness :
  exists n, int_field (subject_entity twice) (31 + 12) = Ok n /\ Some 7 = Some n.
Proof.
  apply (proj1 (scan_takes_last_occurrence (subject_entity twice)
                  (object_entity twice) unbound
                  {| sub_start := Some 7; sub_end := Some 8;
                     obj_start := Some 3; obj_end := Some 3 |}
                  ltac:(vm_compute; reflexivity)) 31).
  apply last_found_check; vm_compute; [split; congruence|reflexivity..].
Defined.

(** ** More on [label_to_num] *)

Section MoreLabels.
Variable dict_label_to_num : gmap string Z.
Implicit Types label : list string.

Lemma lookup_all_app label1 label2 :
  lookup_all dict_label_to_num (label1 ++ label2)
  = (a <- lookup_all dict_label_to_num label1 ;;
     b <- lookup_all dict_label_to_num label2 ;; Ok (a ++ b)).
Proof.
  induction label1 as [|v label1 IH]; simpl.
  - destruct (lookup_all dict_label_to_num label2); reflexivity.
  - destruct (dict_label_to_num !! v); [|reflexivity]. rewrite IH.
    destruct (lookup_all dict_label_to_num label1); [|reflexivity]. simpl.
    destruct (lookup_all dict_label_to_num label2); reflexivity.
Qed.

Lemma lookup_all_present label :
  Forall (fun v => is_Some (dict_label_to_num !! v)) label ->
  exists nums, lookup_all dict_label_to_num label = Ok nums.
Proof.
  induction 1 as [|v label [n Hn] _ (nums & IH)]; simpl; [eauto|].
  rewrite Hn, IH. simpl. eauto.
Qed.

Lemma lookup_all_Forall label nums :
  lookup_all dict_label_to_num label = Ok nums ->
  Forall (fun v => is_Some (dict_label_to_num !! v)) label.
Proof.
  intros H. apply lookup_all_returns in H.
  induction H as [|v n label nums Hv _ IH]; constructor; eauto.
Qed.

End MoreLabels.

Lemma label_to_num_returns (dict_label_to_num : gmap string Z)
    (label : list string) (nums : list Z) :
  label_to_num dict_label_to_num label = Ok nums ->
  Forall2 (fun v n => dict_label_to_num !! v = Some n) label nums.
Proof. rewrite label_to_num_lookup_all. apply lookup_all_returns. Qed.

(** X7. [label_to_num] goes through a list of labels part by part: the numbers
    of a concatenation are the numbers of the first part followed by those of
    the second, and an absent label in the first part hides whatever the
    second part holds. *)
Theorem label_to_num_app (dict_label_to_num : gmap string Z)
    (label1 label2 : list string) :
  label_to_num dict_label_to_num (label1 ++ label2)
  = (a <- label_to_num dict_label_to_num label1 ;;
     b <- label_to_num dict_label_to_num label2 ;; Ok (a ++ b)).
Proof. rewrite !label_to_num_lookup_all. apply lookup_all_app. Qed.

(** X8. The [KeyError] of [label_to_num] names the first label of the list that
    the table does not hold: the labels before it are all present, and what
    follows it is not looked at. *)
Theorem label_to_num_first_absent (dict_label_to_num : gmap string Z)
    (pre : list string) (v : string) (post : list string) :
  Forall (fun w => is_Some (dict_label_to_num !! w)) pre ->
  dict_label_to_num !! v = None ->
  label_to_num dict_label_to_num (pre ++ v :: post) = Raise (KeyError v).
Proof.
  intros Hpre Hv. rewrite !label_to_num_lookup_all, lookup_all_app.
  destruct (lookup_all_present _ _ Hpre) as (nums & ->). simpl.
  rewrite Hv. reflexivity.
Qed.

Lemma label_to_num_first_absent_witness :
  label_to_num two_labels
    (["no_relation"%string] ++ "org:members"%string :: ["per:title"%string])
  = Raise (KeyError "org:members").
Proof.
  apply (label_to_num_first_absent two_labels ["no_relation"%string]).
  - repeat constructor. eexists. vm_compute. reflexivity.
  - vm_compute. reflexivity.
Defined.

(** X9. A larger table changes nothing for the lists a table converts: when
    every entry of [d] is an entry of [d'], a list that [d] converts is
    converted by [d'] to the same numbers. *)
Theorem label_to_num_mono (d d' : gmap string Z) (label : list string)
    (nums : list Z) :
  d ⊆ d' ->
  label_to_num d label = Ok nums ->
  label_to_num d' label = Ok nums.
Proof.
  rewrite !label_to_num_lookup_all. intros Hsub. revert nums.
  induction label as [|v label IH]; intros nums; simpl; [tauto|].
  destruct (d !! v) as [n|] eqn:E; [|discriminate].
  rewrite (lookup_weaken d d' v n E Hsub).
  destruct (lookup_all d label) as [ns|]; [|discriminate].
  rewrite (IH ns eq_refl). tauto.
Qed.

Lemma label_to_num_mono_witness :
  label_to_num (<["org:members"%string := 2]> two_labels)
    ["per:employee_of"; "no_relation"]%string = Ok [6; 0].
Proof.
  apply (label_to_num_mono two_labels).
  - apply insert_subseteq. vm_compute. reflexivity.
  - vm_compute. reflexivity.
Defined.

(** ** [load_data] and [label_to_num] in [train] *)

(** X10. The numbers [train] computes for the whole table are aligned with the
    rows of the table: when [load_data] and [label_to_num] both return, there
    is one number for each row, in the order of the rows, and it is the
    table's number of that row's label. *)
Theorem all_label_aligned (dict_label_to_num : gmap string Z)
    (data : list raw_row) (nums : list Z) :
  all_label dict_label_to_num data = Ok nums ->
  Forall2 (fun r n => dict_label_to_num !! label r = Some n) data nums.
Proof.
  unfold all_label. destruct (load_data data) as [df|] eqn:E; [|discriminate].
  cbn [bind]. intros H.
  destruct (load_data_row_for_row_aux data df E) as (_ & Hl).
  apply label_to_num_returns in H. rewrite Hl in H.
  apply Forall2_fmap_l in H. exact H.
Qed.

Lemma all_label_aligned_witness :
  Forall2 (fun r n => two_labels !! label r = Some n) [kim; anna] [6; 6].
Proof.
  apply (all_label_aligned two_labels [kim; anna] [6; 6]).
  vm_compute. reflexivity.
Defined.

Section Iloc.
Context {A : Type}.
Implicit Types (frame : list A) (idx : list Z).

Lemma iloc_acc frame idx rows :
  for_each (fun i rows => a <- index frame i ;; Ok (rows ++ [a])) idx rows
  = (sel <- iloc frame idx ;; Ok (rows ++ sel)).
Proof.
  unfold iloc. revert rows. induction idx as [|i idx IH]; intros rows; simpl.
  - rewrite app_nil_r. reflexivity.
  - destruct (index frame i) as [a|]; [|reflexivity]. cbn [bind].
    rewrite (IH (rows ++ [a])), (IH [a]).
    destruct (for_each _ idx []); [|reflexivity]. simpl.
    rewrite <- app_assoc. reflexivity.
Qed.

Lemma iloc_cons frame i idx :
  iloc frame (i :: idx)
  = (a <- index frame i ;; sel <- iloc frame idx ;; Ok (a :: sel)).
Proof.
  unfold iloc at 1. simpl. destruct (index frame i) as [a|]; [|reflexivity].
  cbn [bind]. rewrite iloc_acc. destruct (iloc frame idx); reflexivity.
Qed.

End Iloc.

Lemma nth_error_is_lookup {A} (l : list A) (i : nat) : nth_error l i = l !! i.
Proof. revert i. induction l as [|a l IH]; intros [|i]; simpl; auto. Qed.

(** Two lists of one length answer an index alike. *)
Lemma index_Forall2 {A B} (R : A -> B -> Prop) (l1 : list A) (l2 : list B) (i : Z) :
  Forall2 R l1 l2 ->
  (index l1 i = Raise IndexError /\ index l2 i = Raise IndexError)
  \/ (exists a b, index l1 i = Ok a /\ index l2 i = Ok b /\ R a b).
Proof.
  intros HF. pose proof (Forall2_length _ _ _ HF) as Hlen. unfold index, len.
  rewrite <- Hlen. destruct (_ <? 0); [left; split; reflexivity|].
  set (j := Z.to_nat _).
  destruct (nth_error l1 j) as [a|] eqn:E1.
  - destruct (nth_error l2 j) as [b|] eqn:E2.
    + right. exists a, b. repeat split.
      rewrite nth_error_is_lookup in E1. rewrite nth_error_is_lookup in E2.
      exact (Forall2_lookup_lr _ _ _ _ _ _ HF E1 E2).
    + apply nth_error_None in E2.
      assert (nth_error l1 j <> None) as E3 by congruence.
      apply nth_error_Some in E3. lia.
  - left. split; [reflexivity|].
    apply nth_error_None in E1.
    rewrite (proj2 (nth_error_None l2 j)) by lia. reflexivity.
Qed.

(** X11. Inside the loop over the folds [label_to_num] cannot raise any more:
    once the labels of the whole data frame have been converted, the labels of
    a fold are the fold's positions of these numbers, and the only exception
    left is the [IndexError] of a position outside the data frame. *)
Theorem fold_label_selects (dict_label_to_num : gmap string Z)
    (all_dataset : list df_row) (nums : list Z) (train_idx : list Z) :
  label_to_num dict_label_to_num (map df_label all_dataset) = Ok nums ->
  fold_label dict_label_to_num all_dataset train_idx = iloc nums train_idx.
Proof.
  intros H. apply label_to_num_returns, Forall2_fmap_l in H.
  unfold fold_label. induction train_idx as [|i idx IH].
  - reflexivity.
  - rewrite !iloc_cons.
    destruct (index_Forall2 _ all_dataset nums i H)
      as [[-> ->]|(o & n & -> & -> & Hn)]; [reflexivity|].
    cbn [bind]. destruct (iloc all_dataset idx) as [rows|e] eqn:E1;
      cbn [bind] in *.
    + destruct (iloc nums idx) as [sel|e] eqn:E2; cbn [bind] in *.
      * rewrite label_to_num_lookup_all in *. simpl. cbn in Hn. rewrite Hn, IH.
        reflexivity.
      * rewrite label_to_num_lookup_all in *. simpl. cbn in Hn. rewrite Hn, IH.
        reflexivity.
    + rewrite <- IH. reflexivity.
Qed.

Lemma fold_label_selects_witness :
  fold_label two_labels [kim_row; anna_row] [1; 0; -1; 1] = iloc [6; 6] [1; 0; -1; 1]
  /\ fold_label two_labels [kim_row; anna_row] [2] = Raise IndexError.
Proof.
  split.
  - apply (fold_label_selects two_labels [kim_row; anna_row] [6; 6]).
    vm_compute. reflexivity.
  - rewrite (fold_label_selects two_labels [kim_row; anna_row] [6; 6]);
      vm_compute; reflexivity.
Defined.

(** ** What [tokenized_dataset] returns and prints *)

Lemma index_nat {A} (l : list A) (i : nat) :
  index l (Z.of_nat i)
  = match l !! i with Some a => Ok a | None => Raise IndexError end.
Proof.
  unfold index.
  rewrite (proj2 (Z.ltb_ge (Z.of_nat i) 0)) by lia.
  rewrite (proj2 (Z.ltb_ge (Z.of_nat i) 0)) by lia.
  rewrite Nat2Z.id, nth_error_is_lookup. reflexivity.
Qed.

Section Printed.
Context `{Tokenizer T}.
Variables (tokenizer : T) (sentences : list str).

Lemma check_decoded_ok (i : nat) printed out :
  check_decoded tokenizer sentences (Z.of_nat i) printed = Ok out
  <-> exists s p, sentences !! i = Some s /\ decodes tokenizer s p
                  /\ out = printed ++ [p].
Proof.
  unfold check_decoded, decodes. rewrite index_nat. split.
  - destruct (sentences !! i) as [s|]; [|discriminate]. cbn [bind].
    destruct (encode tokenizer s) as [e|] eqn:Ee; [|discriminate]. cbn [bind].
    destruct (decode tokenizer e) as [p|] eqn:Ed; [|discriminate]. cbn [bind].
    intros [= <-]. exists s, p. eauto.
  - intros (s & p & Hs & (e & He & Hd) & ->). rewrite Hs. cbn [bind].
    rewrite He. cbn [bind]. rewrite Hd. reflexivity.
Qed.

Lemma check_decoded_loop (n start : nat) printed out :
  for_each (check_decoded tokenizer sentences) (map Z.of_nat (seq start n)) printed
  = Ok out
  <-> exists ps, out = printed ++ ps /\ length ps = n /\
                 Forall2 (decodes tokenizer) (take n (drop start sentences)) ps.
Proof.
  revert start printed. induction n as [|n IH]; intros start printed.
  - simpl. split.
    + intros [= <-]. exists []. rewrite app_nil_r. repeat split. constructor.
    + intros (ps & -> & Hl & _). destruct ps; [|discriminate].
      rewrite app_nil_r. reflexivity.
  - cbn [seq map for_each]. split.
    + destruct (check_decoded tokenizer sentences (Z.of_nat start) printed)
        as [out1|] eqn:E; [|discriminate].
      cbn [bind]. intros Hrest.
      apply check_decoded_ok in E as (s & p & Hs & Hsp & ->).
      apply IH in Hrest as (ps & -> & Hlen & Hps).
      exists (p :: ps). rewrite <- app_assoc. split; [reflexivity|].
      split; [simpl; lia|].
      rewrite (drop_S _ _ _ Hs). simpl. constructor; assumption.
    + intros (ps & -> & Hlen & Hps).
      destruct ps as [|p ps']; [discriminate|].
      destruct (drop start sentences) as [|s rest] eqn:Ed;
        [simpl in Hps; inversion Hps|].
      assert (Hs : sentences !! start = Some s).
      { rewrite <- (Nat.add_0_r start), <- lookup_drop, Ed. reflexivity. }
      assert (Er : rest = drop (S start) sentences).
      { rewrite (drop_S _ _ _ Hs) in Ed. congruence. }
      simpl in Hps. inversion Hps as [|? ? ? ? Hsp Hps' E1 E2]; subst.
      rewrite (proj2 (check_decoded_ok start printed (printed ++ [p])))
        by (exists s, p; auto).
      cbn [bind]. apply IH.
      exists ps'. rewrite <- app_assoc. split; [reflexivity|].
      split; [simpl in Hlen; lia|assumption].
Qed.

End Printed.

(** X12. [tokenized_dataset] returns exactly when the registration of the
    markers and the encoding of the batch return and each of the first ten
    sentences exists, is encoded and is decoded again; it then returns the
    batch encoded from all the sentences by the tokenizer that carries the
    markers, and has printed ten lines, the decoded first ten sentences in
    their order. *)
Theorem tokenized_dataset_result `{Tokenizer T} (dataset : list df_row)
    (tokenizer tokenizer' : T) (printed : list str) (b : batch) :
  tokenized_dataset dataset tokenizer = Ok (tokenizer', printed, b)
  <-> add_special_tokens special_tokens_dict tokenizer = Ok tokenizer' /\
      call tokenizer' (map df_sentence dataset) = Ok b /\
      length printed = 10%nat /\
      Forall2 (decodes tokenizer') (take 10 (map df_sentence dataset)) printed.
Proof.
  unfold tokenized_dataset.
  pose proof (fun t out => check_decoded_loop t (map df_sentence dataset)
                             10 0 [] out) as Hloop.
  unfold range. change (Z.to_nat 10) with 10%nat.
  split.
  - destruct (add_special_tokens special_tokens_dict tokenizer) as [t1|];
      [|discriminate]. cbn [bind].
    destruct (call t1 (map df_sentence dataset)) as [b1|] eqn:Ec;
      [|discriminate]. cbn [bind].
    destruct (for_each _ _ []) as [out|] eqn:El; [|discriminate]. cbn [bind].
    intros [= -> -> ->].
    apply Hloop in El as (ps & -> & Hlen & Hps). rewrite drop_0 in Hps.
    rewrite Ec. auto.
  - intros (-> & Hc & Hlen & Hps). cbn [bind]. rewrite Hc. cbn [bind].
    rewrite (proj2 (Hloop tokenizer' printed)); [reflexivity|].
    exists printed. rewrite drop_0. auto.
Qed.

Lemma tokenized_dataset_result_witness :
  tokenized_dataset (replicate 10 kim_row) tt
  = Ok (tt, replicate 10 (df_sentence kim_row),
        replicate 10 (map code (df_sentence kim_row))).
Proof.
  apply (proj2 (@tokenized_dataset_result unit char_tokenizer
                  (replicate 10 kim_row) tt tt
                  (replicate 10 (df_sentence kim_row))
                  (replicate 10 (map code (df_sentence kim_row))))).
  split; [reflexivity|]. split; [reflexivity|]. split; [reflexivity|].
  simpl. repeat constructor; eexists; split; reflexivity.
Defined.

(** ** [RE_Dataset] *)

Lemma index_in_range {A} (l : list A) (i : Z) :
  fails (index l i) = false <-> - len l <= i < len l.
Proof.
  unfold index, len. destruct (Z.ltb_spec i 0).
  - destruct (Z.ltb_spec (i + Z.of_nat (length l)) 0); simpl.
    + split; [discriminate|lia].
    + destruct (nth_error l _) eqn:E; simpl.
      * split; [lia|reflexivity].
      * apply nth_error_None in E. split; [discriminate|lia].
  - destruct (Z.ltb_spec i 0); [lia|].
    destruct (nth_error l _) eqn:E; simpl.
    + assert (nth_error l (Z.to_nat i) <> None) as E' by congruence.
      apply nth_error_Some in E'. split; [lia|reflexivity].
    + apply nth_error_None in E. split; [discriminate|lia].
Qed.

Section Dataset.
Context {A : Type}.
Implicit Types (pd : dict (list A)) (item : dict (cell A)).

Lemma dict_get_set {V} (k k' : string) (v : V) (d : dict V) :
  dict_get k' (dict_set k v d) = if decide (k' = k) then Some v else dict_get k' d.
Proof.
  induction d as [|[k0 v0] d IH]; simpl.
  - destruct (decide (k' = k)); reflexivity.
  - destruct (decide (k = k0)) as [->|Hne]; simpl.
    + destruct (decide (k' = k0)); reflexivity.
    + destruct (decide (k' = k0)) as [->|Hne'].
      * destruct (decide (k0 = k)); [congruence|reflexivity].
      * exact IH.
Qed.

Lemma dict_get_None {V} (k : string) (d : dict V) :
  ~ In k (map fst d) -> dict_get k d = None.
Proof.
  induction d as [|[k0 v0] d IH]; simpl; [reflexivity|].
  intros Hn. destruct (decide (k = k0)); [subst; tauto|]. apply IH. tauto.
Qed.

Lemma tensor_index_ok (val : list A) (idx : Z) (c : A) :
  tensor_index val idx = Ok c <-> fits_int64 idx = true /\ index val idx = Ok c.
Proof.
  unfold tensor_index, unpack_long. destruct (fits_int64 idx); cbn [bind].
  - tauto.
  - split; [discriminate|intros [? _]; discriminate].
Qed.

Lemma tensor_index_raises (val : list A) (idx : Z) (e : exn) :
  tensor_index val idx = Raise e -> e = IndexError \/ e = overflow.
Proof.
  unfold tensor_index, unpack_long. destruct (fits_int64 idx); cbn [bind].
  - intros H. left. exact (index_raises _ _ _ H).
  - intros [= <-]. right. reflexivity.
Qed.

Lemma tensor_index_runs (val : list A) (idx : Z) :
  fails (tensor_index val idx) = false
  <-> fits_int64 idx = true /\ - len val <= idx < len val.
Proof.
  rewrite <- index_in_range. unfold tensor_index, unpack_long.
  destruct (fits_int64 idx); cbn [bind].
  - tauto.
  - split; [discriminate|intros [? _]; discriminate].
Qed.

(** The rounds of the dict comprehension. *)
Lemma comprehension_ok pd idx item0 item :
  NoDup (map fst pd) ->
  for_each (fun kv item =>
              c <- tensor_index kv.2 idx ;; Ok (dict_set kv.1 (Row c) item))
    pd item0 = Ok item ->
  forall key,
    dict_get key item
    = match dict_get key pd with
      | Some val => match tensor_index val idx with
                    | Ok c => Some (Row c)
                    | Raise _ => None
                    end
      | None => dict_get key item0
      end.
Proof.
  revert item0. induction pd as [|[k val] pd IH]; intros item0 Hnd; simpl.
  - intros [= <-] key. reflexivity.
  - apply NoDup_cons in Hnd as [Hk Hnd].
    destruct (tensor_index val idx) as [c|] eqn:Ec; [|discriminate]. cbn [bind].
    intros H key. rewrite (IH _ Hnd H key), dict_get_set.
    destruct (decide (key = k)) as [->|Hne].
    + rewrite dict_get_None, Ec; [reflexivity|].
      intros Hin. apply Hk. apply list_elem_of_In. exact Hin.
    + reflexivity.
Qed.

Lemma comprehension_runs pd idx item0 :
  (exists item, for_each (fun kv item =>
                  c <- tensor_index kv.2 idx ;; Ok (dict_set kv.1 (Row c) item))
                  pd item0 = Ok item)
  <-> Forall (fun kv => fails (tensor_index kv.2 idx) = false) pd.
Proof.
  revert item0. induction pd as [|[k val] pd IH]; intros item0; simpl.
  - split; [constructor|eauto].
  - destruct (tensor_index val idx) as [c|] eqn:Ec; cbn [bind].
    + rewrite IH. split.
      * intros HF. constructor; [simpl; rewrite Ec; reflexivity|exact HF].
      * intros HF. inversion HF. assumption.
    + split; [intros (? & ?); discriminate|].
      intros HF. inversion HF as [|? ? Hh]. simpl in Hh. rewrite Ec in Hh.
      discriminate.
Qed.

Lemma comprehension_raises pd idx item0 e :
  for_each (fun kv item =>
              c <- tensor_index kv.2 idx ;; Ok (dict_set kv.1 (Row c) item))
    pd item0 = Raise e -> e = IndexError \/ e = overflow.
Proof.
  revert item0. induction pd as [|[k val] pd IH]; intros item0; simpl;
    [discriminate|].
  destruct (tensor_index val idx) as [c|] eqn:Ec; cbn [bind].
  - apply IH.
  - intros [= <-]. exact (tensor_index_raises _ _ _ Ec).
Qed.

End Dataset.

(** X13. An item of the data set holds, under the key [labels], the label at
    the index and, under each other key of the pair data set, the row of that
    key's tensor at the index, and nothing else; a tensor that the pair data
    set itself keeps under [labels] is replaced by the label. *)
Theorem getitem_item {A} (self : RE_Dataset A) (idx : Z) (item : dict (cell A)) :
  NoDup (map fst (pair_dataset self)) ->
  getitem self idx = Ok item ->
  (exists l, index (labels self) idx = Ok l
             /\ dict_get "labels"%string item = Some (Label l)) /\
  (forall key val, key <> "labels"%string ->
     dict_get key (pair_dataset self) = Some val ->
     exists c, index val idx = Ok c /\ dict_get key item = Some (Row c)) /\
  (forall key, key <> "labels"%string ->
     dict_get key (pair_dataset self) = None -> dict_get key item = None).
Proof.
  intros Hnd. unfold getitem.
  match goal with
  | |- context [for_each ?f (pair_dataset self) []] =>
      destruct (for_each f (pair_dataset self) []) as [item0|] eqn:E;
      [|discriminate]
  end.
  cbn [bind]. destruct (index (labels self) idx) as [l|]; [|discriminate].
  cbn [bind]. unfold unpack_long. destruct (fits_int64 l); [|discriminate].
  cbn [bind]. intros [= <-].
  pose proof (comprehension_ok _ _ _ _ Hnd E) as Hget.
  assert (Hall : Forall (fun kv => fails (tensor_index kv.2 idx) = false)
                   (pair_dataset self)).
  { apply (comprehension_runs (pair_dataset self) idx []). eauto. }
  split; [|split].
  - exists l. split; [reflexivity|]. rewrite dict_get_set.
    destruct (decide _); [reflexivity|congruence].
  - intros key val Hk Hv. rewrite dict_get_set.
    destruct (decide _); [congruence|]. rewrite Hget, Hv.
    assert (Hin : In (key, val) (pair_dataset self)).
    { clear -Hv. induction (pair_dataset self) as [|[k0 v0] d IH]; simpl in *;
        [discriminate|].
      destruct (decide (key = k0)) as [->|]; [left; congruence|right; auto]. }
    rewrite Forall_forall in Hall.
    specialize (Hall (key, val) (proj2 (list_elem_of_In _ _) Hin)). simpl in Hall.
    destruct (tensor_index val idx) as [c|] eqn:Ec; [|discriminate].
    apply tensor_index_ok in Ec as [_ Ec]. eauto.
  - intros key Hk Hv. rewrite dict_get_set.
    destruct (decide _); [congruence|]. rewrite Hget, Hv. reflexivity.
Qed.

Lemma getitem_item_witness :
  (exists l, index (labels short_column) 0 = Ok l
             /\ dict_get "labels"%string
                  [("input_ids"%string, Row [0; 5; 2]);
                   ("attention_mask"%string, Row [1; 1; 1]);
                   ("labels"%string, Label 6)] = Some (Label l)).
Proof.
  apply (getitem_item short_column 0).
  - simpl. repeat constructor; rewrite ?list_elem_of_In; simpl; intuition discriminate.
  - vm_compute. reflexivity.
Defined.

(** X14. [__getitem__] raises nothing but [IndexError] and the overflow error
    of the tensor library.  It returns exactly when the index is one of the
    list of labels and of every tensor of the pair data set, the index fits in
    64 bits where a tensor is indexed with it, and the label at the index fits
    in 64 bits.  [__len__] counts the labels only: an index below it has no
    item when a tensor has fewer rows. *)
Theorem getitem_runs {A} (self : RE_Dataset A) (idx : Z) :
  ((exists item, getitem self idx = Ok item)
   <-> (- dataset_len self <= idx < dataset_len self) /\
       Forall (fun kv => fits_int64 idx = true /\ - len kv.2 <= idx < len kv.2)
         (pair_dataset self) /\
       (forall l, index (labels self) idx = Ok l -> fits_int64 l = true)) /\
  (forall e, getitem self idx = Raise e -> e = IndexError \/ e = overflow).
Proof.
  unfold getitem, dataset_len. split.
  - rewrite <- index_in_range.
    assert (HF : Forall (fun kv : string * list A =>
                           fits_int64 idx = true /\ - len kv.2 <= idx < len kv.2)
                   (pair_dataset self)
                 <-> Forall (fun kv => fails (tensor_index kv.2 idx) = false)
                       (pair_dataset self)).
    { rewrite !Forall_forall. split; intros H kv Hkv;
        apply tensor_index_runs, H, Hkv. }
    rewrite HF, <- (comprehension_runs (pair_dataset self) idx []).
    match goal with
    | |- context [for_each ?f (pair_dataset self) []] =>
        destruct (for_each f (pair_dataset self) []) as [item0|]; cbn [bind]
    end.
    + destruct (index (labels self) idx) as [l|]; cbn [bind fails].
      * unfold unpack_long. destruct (fits_int64 l) eqn:El; cbn [bind].
        -- split; [|eauto]. intros _. split; [reflexivity|].
           split; [eauto|]. intros l' [= <-]. exact El.
        -- split; [intros (? & ?); discriminate|].
           intros (_ & _ & H). specialize (H l eq_refl). congruence.
      * split; [intros (? & ?); discriminate|intros [? _]; discriminate].
    + split; [intros (? & ?); discriminate|].
      intros (_ & (? & ?) & _). discriminate.
  - intros e.
    match goal with
    | |- context [for_each ?f (pair_dataset self) []] =>
        destruct (for_each f (pair_dataset self) []) as [item0|e0] eqn:E;
        cbn [bind]
    end.
    + destruct (index (labels self) idx) as [l|e1] eqn:El; cbn [bind].
      * unfold unpack_long. destruct (fits_int64 l); cbn [bind]; [discriminate|].
        intros [= <-]. right. reflexivity.
      * intros [= <-]. left. exact (index_raises _ _ _ El).
    + intros [= <-]. exact (comprehension_raises _ _ _ _ E).
Qed.

Lemma getitem_runs_witness :
  (0 <= 1 < dataset_len short_column
   /\ ~ (exists item, getitem short_column 1 = Ok item))
  /\ (0 <= 0 < dataset_len wide_label
      /\ ~ (exists item, getitem wide_label 0 = Ok item)).
Proof.
  split; (split; [vm_compute; split; congruence|]); intros H.
  - apply (proj1 (getitem_runs short_column 1)) in H as (_ & HF & _).
    inversion HF as [|? ? Hh]. simpl in Hh. vm_compute in Hh.
    destruct Hh as [_ [_ Hh]]. discriminate.
  - apply (proj1 (getitem_runs wide_label 0)) in H as (_ & _ & Hl).
    specialize (Hl (2 ^ 63) eq_refl). vm_compute in Hl. discriminate.
Defined.

(** ** What the insertion keeps, whatever the offsets *)

Section Keeps.
Context {A : Type}.
Implicit Types s o c : list A.

Lemma clamp_range (n i : Z) : 0 <= n -> 0 <= clamp n i <= n.
Proof.
  intros Hn. unfold clamp.
  destruct (i <? 0); destruct (Z.ltb_spec (i + n) 0); destruct (Z.ltb_spec i 0);
    try lia;
    repeat match goal with
           | |- context [?a <? ?b] => destruct (Z.ltb_spec a b)
           end; lia.
Qed.

Lemma upto_take s i : upto s i = take (Z.to_nat (clamp (len s) i)) s.
Proof. unfold upto, slice. rewrite Z.sub_0_r. reflexivity. Qed.

Lemma from_drop s j : from s j = drop (Z.to_nat (clamp (len s) j)) s.
Proof.
  unfold from, slice. pose proof (clamp_range (len s) j (len_nonneg s)).
  apply take_ge. rewrite length_drop. unfold len in *. lia.
Qed.

Lemma sub_take_drop s i j :
  sub s i j = take (Z.to_nat (clamp (len s) j) - Z.to_nat (clamp (len s) i))
                (drop (Z.to_nat (clamp (len s) i)) s).
Proof.
  unfold sub, slice.
  pose proof (clamp_range (len s) i (len_nonneg s)).
  pose proof (clamp_range (len s) j (len_nonneg s)).
  f_equal. lia.
Qed.

(** The three slices around an insertion cover the string. *)
Lemma slices_cover s i j : s `sublist_of` upto s i ++ sub s i j ++ from s j.
Proof.
  rewrite upto_take, from_drop, sub_take_drop.
  set (I := Z.to_nat (clamp (len s) i)). set (J := Z.to_nat (clamp (len s) j)).
  destruct (le_lt_dec I J) as [Hle|Hlt].
  - replace (drop J s) with (drop (J - I) (drop I s))
      by (rewrite drop_drop; f_equal; lia).
    rewrite take_drop, take_drop. reflexivity.
  - replace (J - I)%nat with 0%nat by lia. rewrite take_0. simpl.
    rewrite <- (take_drop I s) at 1. apply sublist_app; [reflexivity|].
    replace (drop I s) with (drop (I - J) (drop J s))
      by (rewrite drop_drop; f_equal; lia).
    apply sublist_drop.
Qed.

Lemma insert_pair_keeps s o c i j :
  s `sublist_of` upto s i ++ o ++ sub s i j ++ c ++ from s j.
Proof.
  etransitivity; [apply (slices_cover s i j)|].
  apply sublist_app; [reflexivity|]. apply sublist_inserts_l.
  apply sublist_app; [reflexivity|]. apply sublist_inserts_l. reflexivity.
Qed.

Lemma insert_pair_grows s o c i j :
  len s + len o + len c <= len (upto s i ++ o ++ sub s i j ++ c ++ from s j).
Proof.
  pose proof (sublist_length _ _ (slices_cover s i j)) as H.
  rewrite !length_app in H. rewrite !len_app. unfold len in *. lia.
Qed.

End Keeps.

(** X15. Whatever the offsets are (valid or not, disjoint or not), the marker
    insertion deletes nothing: the characters of the sentence are all in the
    marked sentence, in their order, and the marked sentence is at least 22
    characters longer. *)
Theorem mark_keeps_sentence (z : str) (sub_i obj_i : Z * Z) :
  z `sublist_of` mark z sub_i obj_i /\ len z + 22 <= len (mark z sub_i obj_i).
Proof.
  unfold mark. destruct (sub_i.1 <? obj_i.1).
  - set (z1 := upto z sub_i.1 ++ _ ++ sub z sub_i.1 _ ++ _ ++ from z _).
    split.
    + etransitivity; [apply (insert_pair_keeps z (lit "[SUB]") (lit "[/SUB]"))|].
      apply insert_pair_keeps.
    + pose proof (insert_pair_grows z (lit "[SUB]") (lit "[/SUB]")
                    sub_i.1 (sub_i.2 + 1)) as H1.
      pose proof (insert_pair_grows z1 (lit "[OBJ]") (lit "[/OBJ]")
                    (obj_i.1 + 11) (obj_i.2 + 12)) as H2.
      fold z1 in H1. change (len (lit "[SUB]")) with 5 in H1.
      change (len (lit "[/SUB]")) with 6 in H1.
      change (len (lit "[OBJ]")) with 5 in H2.
      change (len (lit "[/OBJ]")) with 6 in H2. lia.
  - set (z1 := upto z obj_i.1 ++ _ ++ sub z obj_i.1 _ ++ _ ++ from z _).
    split.
    + etransitivity; [apply (insert_pair_keeps z (lit "[OBJ]") (lit "[/OBJ]"))|].
      apply insert_pair_keeps.
    + pose proof (insert_pair_grows z (lit "[OBJ]") (lit "[/OBJ]")
                    obj_i.1 (obj_i.2 + 1)) as H1.
      pose proof (insert_pair_grows z1 (lit "[SUB]") (lit "[/SUB]")
                    (sub_i.1 + 11) (sub_i.2 + 12)) as H2.
      fold z1 in H1. change (len (lit "[OBJ]")) with 5 in H1.
      change (len (lit "[/OBJ]")) with 6 in H1.
      change (len (lit "[SUB]")) with 5 in H2.
      change (len (lit "[/SUB]")) with 6 in H2. lia.
Qed.

(** ** Integers written and read back *)

Section Decimal.

Lemma digits_acc (d : Decimal.uint) (acc : positive) :
  digits (Zpos acc) false (lit (NilEmpty.string_of_uint d))
  = Some (Zpos (Pos.of_uint_acc d acc)).
Proof.
  revert acc. induction d; intros acc; [reflexivity|..];
    cbn [NilEmpty.string_of_uint lit list_ascii_of_string digits Pos.of_uint_acc];
    change (list_ascii_of_string (NilEmpty.string_of_uint d))
      with (lit (NilEmpty.string_of_uint d));
    rewrite <- IHd;
    match goal with
    | |- context [digit ?c] =>
        let v := eval vm_compute in (digit c) in change (digit c) with v
    end;
    cbv iota; f_equal; lia.
Qed.

Lemma digits_zero (d : Decimal.uint) :
  digits 0 false (lit (NilEmpty.string_of_uint d)) = Some (Z.of_uint d).
Proof.
  induction d; [reflexivity|..];
    cbn [NilEmpty.string_of_uint lit list_ascii_of_string digits];
    change (list_ascii_of_string (NilEmpty.string_of_uint d))
      with (lit (NilEmpty.string_of_uint d));
    match goal with
    | |- context [digit ?c] =>
        let v := eval vm_compute in (digit c) in change (digit c) with v
    end;
    cbv iota; [exact IHd|..]; apply digits_acc.
Qed.

Lemma unsigned_uint (d : Decimal.uint) :
  d <> Decimal.Nil ->
  unsigned (lit (NilEmpty.string_of_uint d)) = Some (Z.of_uint d).
Proof.
  intros Hd. rewrite <- digits_zero. destruct d; [congruence|..]; reflexivity.
Qed.

Lemma numchar_uint (d : Decimal.uint) :
  forallb numchar (lit (NilEmpty.string_of_uint d)) = true.
Proof. induction d; [reflexivity|..]; exact IHd. Qed.

Lemma repr_int_pos (p : positive) :
  repr_int (Zpos p) = lit (NilEmpty.string_of_uint (Pos.to_uint p)).
Proof.
  unfold repr_int. simpl. pose proof (Unsigned.to_uint_nonnil p) as Hp.
  destruct (Pos.to_uint p); [congruence|..]; reflexivity.
Qed.

Lemma repr_int_neg (p : positive) :
  repr_int (Zneg p) = "-"%char :: lit (NilEmpty.string_of_uint (Pos.to_uint p)).
Proof.
  unfold repr_int. simpl. pose proof (Unsigned.to_uint_nonnil p) as Hp.
  destruct (Pos.to_uint p); [congruence|..]; reflexivity.
Qed.

Lemma repr_int_numchar (n : Z) : forallb numchar (repr_int n) = true.
Proof.
  destruct n as [|p|p]; [reflexivity|..].
  - rewrite repr_int_pos. apply numchar_uint.
  - rewrite repr_int_neg. simpl. apply numchar_uint.
Qed.

Lemma numchar_no_space (c : ascii) : numchar c = true -> isspace c = false.
Proof.
  destruct c as [[|] [|] [|] [|] [|] [|] [|] [|]]; vm_compute; congruence.
Qed.

Lemma lstrip_spaces (ws s : str) :
  forallb isspace ws = true -> lstrip (ws ++ s) = lstrip s.
Proof.
  induction ws as [|c ws IH]; simpl; [reflexivity|].
  rewrite andb_true_iff. intros [-> H]. exact (IH H).
Qed.

Lemma lstrip_core (s t : str) :
  s <> [] -> forallb (fun c => negb (isspace c)) s = true -> lstrip (s ++ t) = s ++ t.
Proof.
  destruct s as [|c s]; [congruence|]. simpl. intros _.
  rewrite andb_true_iff, negb_true_iff. intros [-> _]. reflexivity.
Qed.

(** [strip] takes the blanks around a text without blanks away. *)
Lemma strip_around (ws1 core ws2 : str) :
  forallb isspace ws1 = true -> forallb isspace ws2 = true ->
  forallb (fun c => negb (isspace c)) core = true ->
  strip (ws1 ++ core ++ ws2) = core.
Proof.
  intros H1 H2 Hc. unfold strip, rstrip. rewrite lstrip_spaces by exact H1.
  destruct core as [|c core].
  - simpl. rewrite <- (app_nil_r ws2), lstrip_spaces by exact H2. reflexivity.
  - rewrite lstrip_core by (congruence || exact Hc).
    rewrite rev_app_distr, lstrip_spaces
      by (rewrite forallb_forall in *; intros a Ha; apply H2, in_rev, Ha).
    rewrite <- (app_nil_r (rev (c :: core))), lstrip_core, app_nil_r.
    + apply rev_involutive.
    + intros E. apply (f_equal (@length _)) in E. rewrite length_rev in E.
      discriminate.
    + rewrite forallb_forall in *. intros a Ha. apply Hc, in_rev, Ha.
Qed.

Lemma uint_head_digit (d : Decimal.uint) :
  d <> Decimal.Nil ->
  exists c s, lit (NilEmpty.string_of_uint d) = c :: s
              /\ Ascii.eqb c "-" = false /\ Ascii.eqb c "+" = false.
Proof. destruct d; [congruence|..]; intros _; eexists _, _; repeat split. Qed.

Lemma digits_uint (d : Decimal.uint) :
  List.filter is_digit (lit (NilEmpty.string_of_uint d))
  = lit (NilEmpty.string_of_uint d).
Proof.
  induction d; [reflexivity|..];
    cbn [NilEmpty.string_of_uint lit list_ascii_of_string List.filter];
    change (list_ascii_of_string (NilEmpty.string_of_uint d))
      with (lit (NilEmpty.string_of_uint d));
    match goal with
    | |- context [is_digit ?c] =>
        let v := eval vm_compute in (is_digit c) in change (is_digit c) with v
    end;
    cbv iota; rewrite IHd; reflexivity.
Qed.

(** The digits of a written integer are those of its absolute value. *)
Lemma digits_repr_int (n : Z) :
  List.filter is_digit (repr_int n) = repr_int (Z.abs n).
Proof.
  destruct n as [|p|p]; [reflexivity|..].
  - change (Z.abs (Z.pos p)) with (Z.pos p). rewrite repr_int_pos.
    apply digits_uint.
  - change (Z.abs (Z.neg p)) with (Z.pos p).
    rewrite repr_int_neg, repr_int_pos. cbn [List.filter].
    change (is_digit "-") with false. cbv iota. apply digits_uint.
Qed.

(** [int] reads a written integer back when it has no more digits than the
    limit, and refuses it otherwise. *)
Lemma int_repr (n : Z) :
  int (repr_int n)
  = if decimal_digits n <=? max_str_digits then Ok n else Raise ValueError.
Proof.
  unfold int.
  rewrite <- (app_nil_r (repr_int n)), <- (app_nil_l (repr_int n ++ [])),
    strip_around; [|reflexivity|reflexivity|].
  2:{ pose proof (repr_int_numchar n) as H. rewrite forallb_forall in *.
      intros c Hc. apply negb_true_iff, numchar_no_space, H, Hc. }
  rewrite digits_repr_int. fold (decimal_digits n).
  rewrite (Z.ltb_antisym (decimal_digits n) max_str_digits).
  assert (Hr : match repr_int n with
               | [] => None
               | c :: t' =>
                   if Ascii.eqb c "-" then Z.opp <$> unsigned t'
                   else if Ascii.eqb c "+" then unsigned t'
                   else unsigned (repr_int n)
               end = Some n).
  { destruct n as [|p|p]; [reflexivity|..].
    - rewrite repr_int_pos. pose proof (Unsigned.to_uint_nonnil p) as Hp.
      pose proof (unsigned_uint _ Hp) as Hu.
      destruct (uint_head_digit _ Hp) as (c & s & E & E1 & E2).
      rewrite E in *. rewrite E1, E2, Hu. unfold Z.of_uint.
      rewrite Unsigned.of_to. reflexivity.
    - rewrite repr_int_neg. pose proof (Unsigned.to_uint_nonnil p) as Hp.
      change (Ascii.eqb "-" "-") with true. cbv iota.
      rewrite (unsigned_uint _ Hp). unfold Z.of_uint.
      rewrite Unsigned.of_to. reflexivity. }
  rewrite Hr. destruct (decimal_digits n <=? max_str_digits); reflexivity.
Qed.

End Decimal.

Section SplitFacts.

Lemma split_head (c : ascii) (p t : str) :
  ~ In c p -> exists tl, split c (p ++ c :: t) = p :: tl.
Proof.
  induction p as [|a p IH]; simpl; intros Hn.
  - rewrite Ascii.eqb_refl. eauto.
  - destruct (Ascii.eqb_spec a c) as [->|_]; [tauto|].
    destruct IH as (tl & ->); [tauto|]. eauto.
Qed.

Lemma split_free (c : ascii) (p : str) : ~ In c p -> split c p = [p].
Proof.
  induction p as [|a p IH]; simpl; intros Hn; [reflexivity|].
  destruct (Ascii.eqb_spec a c) as [->|_]; [tauto|].
  rewrite IH by tauto. reflexivity.
Qed.

(** The pieces of a string cut at a separator: those before it, then those
    after it. *)
Lemma split_app (c : ascii) (p t : str) :
  split c (p ++ c :: t) = split c p ++ split c t.
Proof.
  induction p as [|a p IH]; simpl.
  - rewrite Ascii.eqb_refl. reflexivity.
  - destruct (Ascii.eqb a c); [rewrite IH; reflexivity|].
    rewrite IH. destruct (split_cons c p) as (h & tl & ->). reflexivity.
Qed.

Lemma index_last {A} (l : list A) (a : A) : index (l ++ [a]) (-1) = Ok a.
Proof.
  unfold index, len. rewrite length_app. simpl.
  destruct (Z.ltb_spec (-1 + Z.of_nat (length l + 1)) 0); [lia|].
  replace (Z.to_nat _) with (length l) by lia.
  rewrite nth_error_is_lookup, lookup_app_r, Nat.sub_diag by lia. reflexivity.
Qed.

End SplitFacts.

Lemma int_field_repr (p ws1 ws2 rest : str) (n : Z) :
  forallb isspace ws1 = true -> forallb isspace ws2 = true ->
  (rest = [] \/ exists t, rest = ","%char :: t) ->
  int_field (p ++ ws1 ++ repr_int n ++ ws2 ++ rest) (len p)
  = if decimal_digits n <=? max_str_digits then Ok n else Raise ValueError.
Proof.
  intros H1 H2 Hrest. unfold int_field. rewrite from_app by reflexivity.
  assert (Hn : ~ In ","%char (ws1 ++ repr_int n ++ ws2)).
  { pose proof (repr_int_numchar n) as Hr. rewrite forallb_forall in *.
    intros Hin. apply in_app_or in Hin as [Hin|Hin];
      [|apply in_app_or in Hin as [Hin|Hin]].
    - specialize (H1 _ Hin). discriminate.
    - specialize (Hr _ Hin). discriminate.
    - specialize (H2 _ Hin). discriminate. }
  assert (Hs : exists tl, split "," (ws1 ++ repr_int n ++ ws2 ++ rest)
                          = (ws1 ++ repr_int n ++ ws2) :: tl).
  { destruct Hrest as [->|(t & ->)].
    - rewrite app_nil_r, split_free by exact Hn. eauto.
    - replace (ws1 ++ repr_int n ++ ws2 ++ ","%char :: t)
        with ((ws1 ++ repr_int n ++ ws2) ++ ","%char :: t)
        by (rewrite <- !app_assoc; reflexivity).
      apply split_head, Hn. }
  destruct Hs as (tl & ->).
  change (index ((ws1 ++ repr_int n ++ ws2) :: tl) 0)
    with (Ok (A := str) (ws1 ++ repr_int n ++ ws2)).
  cbn [bind]. rewrite strip_around; [apply int_repr|exact H1|exact H2|].
  pose proof (repr_int_numchar n) as Hr. rewrite forallb_forall in *.
  intros c Hc. apply negb_true_iff, numchar_no_space, Hr, Hc.
Qed.

Lemma int_field_readable (p ws1 ws2 rest : str) (n : Z) :
  forallb isspace ws1 = true -> forallb isspace ws2 = true ->
  (rest = [] \/ exists t, rest = ","%char :: t) -> readable n ->
  int_field (p ++ ws1 ++ repr_int n ++ ws2 ++ rest) (len p) = Ok n.
Proof.
  intros H1 H2 H3 Hn. rewrite int_field_repr by assumption.
  unfold readable in Hn.
  destruct (Z.leb_spec (decimal_digits n) max_str_digits); [reflexivity|lia].
Qed.

(** X16. The offset expression [int(x[k:].split(',')[0].strip())] reads back
    an integer written in decimal, up to the limit of [int]: when the text
    from position [k] on is the [repr] of [n], with blanks before and after
    it, followed by a comma or by the end of the field, the value is [n] if
    [n] has at most 4300 digits, and [ValueError] is raised if it has more. *)
Theorem int_field_reads_repr (p ws1 ws2 rest : str) (n : Z) :
  forallb isspace ws1 = true -> forallb isspace ws2 = true ->
  (rest = [] \/ exists t, rest = ","%char :: t) ->
  int_field (p ++ ws1 ++ repr_int n ++ ws2 ++ rest) (len p)
  = if decimal_digits n <=? max_str_digits then Ok n else Raise ValueError.
Proof. apply int_field_repr. Qed.

Lemma int_field_reads_repr_witness :
  int_field (lit "'start_idx':" ++ lit "  " ++ repr_int (-42) ++ lit " "
             ++ lit ", 'end_idx': 2") (len (lit "'start_idx':")) = Ok (-42)
  /\ int_field (lit "'start_idx':" ++ lit " " ++ repr_int (10 ^ 4300) ++ lit ""
                ++ lit ", 'end_idx': 2") (len (lit "'start_idx':"))
     = Raise ValueError.
Proof.
  split.
  - etransitivity;
      [apply (int_field_reads_repr (lit "'start_idx':") (lit "  ") (lit " ")
                (lit ", 'end_idx': 2") (-42));
       [reflexivity|reflexivity|right; eexists; reflexivity]|].
    vm_compute. reflexivity.
  - etransitivity;
      [apply (int_field_reads_repr (lit "'start_idx':") (lit " ") (lit "")
                (lit ", 'end_idx': 2") (10 ^ 4300));
       [reflexivity|reflexivity|right; eexists; reflexivity]|].
    vm_compute. reflexivity.
Defined.

Lemma sub_ends (c0 c1 : ascii) (m : str) : sub (c0 :: m ++ [c1]) 1 (-1) = m.
Proof.
  unfold sub, slice, clamp. simpl len.
  assert (Hl : len (c0 :: m ++ [c1]) = len m + 2).
  { unfold len. simpl. rewrite length_app. simpl. lia. }
  rewrite Hl. pose proof (len_nonneg m).
  change (1 <? 0) with false. change (-1 <? 0) with true. cbv iota.
  rewrite (proj2 (Z.ltb_ge 1 0)) by lia.
  rewrite (proj2 (Z.ltb_ge (len m + 2) 1)) by lia.
  rewrite (proj2 (Z.ltb_ge (-1 + (len m + 2)) 0)) by lia.
  rewrite (proj2 (Z.ltb_ge (len m + 2) (-1 + (len m + 2)))) by lia.
  change (Z.to_nat 1) with 1%nat. simpl drop.
  replace (Z.to_nat _) with (length m) by (unfold len; lia).
  apply take_app_length.
Qed.

Lemma entity_type_tag (c0 c1 : ascii) (pre g1 T g2 : str) :
  ~ In ":"%char (g1 ++ T ++ g2) -> ~ In "'"%char (g1 ++ T ++ g2) ->
  entity_type (c0 :: (pre ++ ":"%char :: g1 ++ "'"%char :: T ++ "'"%char :: g2)
                 ++ [c1]) = Ok T.
Proof.
  intros Hc Hq. unfold entity_type. rewrite sub_ends, split_app.
  assert (Hrest : ~ In ":"%char (g1 ++ "'"%char :: T ++ "'"%char :: g2)).
  { intros Hin. apply Hc. rewrite !in_app_iff in *. simpl in Hin.
    rewrite in_app_iff in Hin. simpl in Hin.
    destruct Hin as [?|[?|[?|[?|?]]]]; try discriminate; tauto. }
  rewrite (split_free ":" _ Hrest), index_last. cbn [bind].
  rewrite split_app, (split_free "'" g1)
    by (intros Hin; apply Hq; rewrite in_app_iff; tauto).
  rewrite split_app, (split_free "'" T), (split_free "'" g2)
    by (intros Hin; apply Hq; rewrite !in_app_iff; tauto).
  reflexivity.
Qed.

(** X17. The type expression [x[1:-1].split(':')[-1].split('\'')[-2]] gives the
    text between the last two quotes that follow the last colon of the field:
    for a field that ends, before its closing character, with a colon, a
    quoted text [T] and nothing else but text without colon and quote around
    the quotes, the type is [T], whatever stands before that colon. *)
Theorem entity_type_reads_tag (c0 c1 : ascii) (pre g1 T g2 : str) :
  ~ In ":"%char (g1 ++ T ++ g2) -> ~ In "'"%char (g1 ++ T ++ g2) ->
  entity_type (c0 :: (pre ++ ":"%char :: g1 ++ "'"%char :: T ++ "'"%char :: g2)
                 ++ [c1]) = Ok T.
Proof. apply entity_type_tag. Qed.

Lemma entity_type_reads_tag_witness :
  entity_type (entity_repr (lit "a: 'b'") 3 4 (lit "PER")) = Ok (lit "PER").
Proof.
  apply (entity_type_reads_tag "{" "}"
           (lit "'word': 'a: 'b'', 'start_idx': 3, 'end_idx': 4, 'type'")
           (lit " ") (lit "PER") (lit ""));
    simpl; intuition discriminate.
Defined.

(** ** Where the keys stand in a field of the data set *)

Section Occurrences.
Implicit Types K s p t : str.

Lemma sub_window s (i : Z) (k : nat) :
  0 <= i -> sub s i (i + Z.of_nat k) = take k (drop (Z.to_nat i) s).
Proof.
  intros Hi. rewrite sub_take_drop. unfold clamp.
  rewrite (proj2 (Z.ltb_ge i 0)) by lia.
  rewrite (proj2 (Z.ltb_ge (i + Z.of_nat k) 0)) by lia.
  rewrite (proj2 (Z.ltb_ge i 0)) by lia.
  rewrite (proj2 (Z.ltb_ge (i + Z.of_nat k) 0)) by lia.
  pose proof (len_nonneg s) as Hn. unfold len in *.
  destruct (Z.ltb_spec (Z.of_nat (length s)) i).
  - rewrite !drop_ge by lia. rewrite !take_nil. reflexivity.
  - destruct (Z.ltb_spec (Z.of_nat (length s)) (i + Z.of_nat k)).
    + rewrite !take_ge by (rewrite length_drop; lia). reflexivity.
    + f_equal. lia.
Qed.

Lemma at_start_idx_occ s (i : Z) :
  0 <= i -> at_start_idx s i = true <-> occ (lit "start_idx") s (Z.to_nat i).
Proof.
  intros Hi. unfold at_start_idx, occ.
  pose proof (sub_window s i 9 Hi) as E. change (Z.of_nat 9) with 9 in E.
  rewrite eqb_str_true, E. reflexivity.
Qed.

Lemma at_end_idx_occ s (i : Z) :
  0 <= i -> at_end_idx s i = true <-> occ (lit "end_idx") s (Z.to_nat i).
Proof.
  intros Hi. unfold at_end_idx, occ.
  pose proof (sub_window s i 7 Hi) as E. change (Z.of_nat 7) with 7 in E.
  rewrite eqb_str_true, E. reflexivity.
Qed.

Lemma occ_fits K s i : K <> [] -> occ K s i -> (i + length K <= length s)%nat.
Proof.
  unfold occ. intros HK H. apply (f_equal (@length _)) in H.
  rewrite length_take, length_drop in H.
  destruct K; [congruence|]. cbn [length] in *. lia.
Qed.

Lemma occ_contains K s i : occ K s i -> contains K s = true.
Proof.
  intros H. destruct (contains K s) eqn:E; [reflexivity|].
  exfalso. exact (contains_false_at K s i E H).
Qed.

(** An occurrence does not reach over a character that the key does not
    hold. *)
Lemma occ_sep K p (c : ascii) t i :
  K <> [] -> ~ In c K -> occ K (p ++ c :: t) i ->
  occ K p i \/ (length p < i /\ occ K t (i - length p - 1))%nat.
Proof.
  unfold occ. intros HK Hc H.
  destruct (le_lt_dec i (length p)) as [Hle|Hlt].
  - left. rewrite drop_app_le in H by exact Hle.
    destruct (le_lt_dec (length K) (length (drop i p))) as [Hfit|Hcross].
    + rewrite take_app_le in H by exact Hfit. exact H.
    + exfalso. apply Hc. rewrite <- H.
      rewrite take_app, take_ge by lia.
      apply in_or_app. right.
      destruct (length K - length (drop i p))%nat eqn:E; [lia|]. left. reflexivity.
  - right. split; [lia|].
    rewrite drop_app_ge in H by lia.
    replace (i - length p)%nat with (S (i - length p - 1)) in H by lia.
    exact H.
Qed.

Lemma occ_join K (q : ascii) segs i :
  K <> [] -> ~ In q K -> occ K (join q segs) i ->
  exists k s j, segs !! k = Some s /\ occ K s j /\ i = (offset segs k + j)%nat.
Proof.
  intros HK Hq. revert i. induction segs as [|s rest IH]; intros i H.
  - apply occ_fits in H; [|exact HK]. destruct K; [congruence|].
    cbn [join length] in H. exfalso. lia.
  - destruct rest as [|s' rest'].
    + exists 0%nat, s, i. repeat split. exact H.
    + change (join q (s :: s' :: rest')) with (s ++ q :: join q (s' :: rest')) in H.
      apply occ_sep in H as [H|[Hlt H]]; [| |exact HK|exact Hq].
      * exists 0%nat, s, i. repeat split. exact H.
      * destruct (IH _ H) as (k & s0 & j & Hk & Hs0 & Hi).
        exists (S k), s0, j. repeat split; [exact Hk|exact Hs0|].
        change (offset (s :: s' :: rest') (S k))
          with (length s + 1 + offset (s' :: rest') k)%nat. lia.
Qed.

(** A key that starts with a character the text does not hold is not in the
    text. *)
Lemma contains_head (c : ascii) K s : ~ In c s -> contains (c :: K) s = false.
Proof.
  intros Hc. apply not_true_iff_false. intros H.
  apply contains_spec in H as (a & b & ->). apply Hc.
  apply in_or_app. right. left. reflexivity.
Qed.

End Occurrences.

Section FieldKeys.
Variables (word : str) (a b : Z) (type : str).
Hypothesis word_free : key_free word.
Hypothesis type_free : key_free type.

Lemma entity_repr_join :
  entity_repr word a b type = join "'" (entity_pieces word a b type).
Proof.
  unfold entity_repr, entity_pieces. cbn [join].
  rewrite <- !app_assoc. reflexivity.
Qed.

(** The piece that holds a number holds no letter. *)
Lemma number_piece_free (c : ascii) (K : str) (n : Z) :
  numchar c = false -> isspace c = false -> c <> ":"%char -> c <> ","%char ->
  contains (c :: K) (lit ": " ++ repr_int n ++ lit ", ") = false.
Proof.
  intros Hn Hs Hc1 Hc2. apply contains_head. intros Hin.
  pose proof (repr_int_numchar n) as Hr. rewrite forallb_forall in Hr.
  simpl in Hin. destruct Hin as [?|[?|Hin]]; [congruence|subst; discriminate|].
  apply in_app_or in Hin as [Hin|Hin].
  - specialize (Hr _ Hin). congruence.
  - simpl in Hin. destruct Hin as [?|[?|[]]]; [congruence|subst; discriminate].
Qed.

Ltac piece_case Hs :=
  first
    [ exfalso; apply occ_contains in Hs;
      first [ rewrite (proj1 word_free) in Hs | rewrite (proj2 word_free) in Hs
            | rewrite (proj1 type_free) in Hs | rewrite (proj2 type_free) in Hs ];
      discriminate
    | exfalso; apply occ_contains in Hs;
      match type of Hs with
      | contains ?K ?p = true =>
          assert (contains K p = false)
            by (first [ apply (number_piece_free "s"%char _ a)
                      | apply (number_piece_free "s"%char _ b)
                      | apply (number_piece_free "e"%char _ a)
                      | apply (number_piece_free "e"%char _ b) ];
                reflexivity || discriminate)
      end; congruence
    | exfalso; apply occ_contains in Hs; vm_compute in Hs; discriminate
    | apply occ_fits in Hs; [|discriminate]; cbn [length lit
        list_ascii_of_string offset entity_pieces app] in *;
      rewrite ?length_app; cbn [length]; lia ].

Lemma start_idx_unique (i : nat) :
  occ (lit "start_idx") (entity_repr word a b type) i ->
  i = (14 + length word)%nat.
Proof.
  rewrite entity_repr_join. intros H.
  apply occ_join in H as (k & s & j & Hk & Hs & ->);
    [|discriminate|simpl; intuition discriminate].
  unfold entity_pieces in *.
  do 13 (destruct k as [|k];
         [cbn [lookup list_lookup] in Hk; injection Hk as <-; piece_case Hs|]).
  cbn [lookup list_lookup] in Hk. discriminate.
Qed.

Lemma end_idx_unique (i : nat) :
  occ (lit "end_idx") (entity_repr word a b type) i ->
  i = (29 + length word + length (repr_int a))%nat.
Proof.
  rewrite entity_repr_join. intros H.
  apply occ_join in H as (k & s & j & Hk & Hs & ->);
    [|discriminate|simpl; intuition discriminate].
  unfold entity_pieces in *.
  do 13 (destruct k as [|k];
         [cbn [lookup list_lookup] in Hk; injection Hk as <-; piece_case Hs|]).
  cbn [lookup list_lookup] in Hk. discriminate.
Qed.

End FieldKeys.

Section FieldValues.
Variables (word : str) (a b : Z) (type : str).

Lemma len_entity_repr :
  len (entity_repr word a b type)
  = 52 + len word + len (repr_int a) + len (repr_int b) + len type.
Proof.
  unfold entity_repr. rewrite !len_app. unfold len, lit. simpl length. lia.
Qed.

Lemma start_idx_at :
  occ (lit "start_idx") (entity_repr word a b type) (14 + length word).
Proof.
  unfold occ, entity_repr.
  replace (lit "{'word': '" ++ word ++ lit "', 'start_idx': " ++ repr_int a
           ++ lit ", 'end_idx': " ++ repr_int b ++ lit ", 'type': '" ++ type
           ++ lit "'}")
    with ((lit "{'word': '" ++ word ++ lit "', '") ++ lit "start_idx"
          ++ (lit "': " ++ repr_int a ++ lit ", 'end_idx': " ++ repr_int b
              ++ lit ", 'type': '" ++ type ++ lit "'}"))
    by (rewrite <- !app_assoc; reflexivity).
  rewrite drop_app_length' by (rewrite !length_app; simpl; lia).
  apply take_app_length.
Qed.

Lemma end_idx_at :
  occ (lit "end_idx") (entity_repr word a b type)
    (29 + length word + length (repr_int a)).
Proof.
  unfold occ, entity_repr.
  replace (lit "{'word': '" ++ word ++ lit "', 'start_idx': " ++ repr_int a
           ++ lit ", 'end_idx': " ++ repr_int b ++ lit ", 'type': '" ++ type
           ++ lit "'}")
    with ((lit "{'word': '" ++ word ++ lit "', 'start_idx': " ++ repr_int a
           ++ lit ", '") ++ lit "end_idx"
          ++ (lit "': " ++ repr_int b ++ lit ", 'type': '" ++ type ++ lit "'}"))
    by (rewrite <- !app_assoc; reflexivity).
  rewrite drop_app_length' by (rewrite !length_app; simpl; lia).
  apply take_app_length.
Qed.

Lemma start_idx_value :
  readable a ->
  int_field (entity_repr word a b type) (Z.of_nat (14 + length word) + 12) = Ok a.
Proof.
  intros Ha.
  unfold entity_repr.
  replace (lit "{'word': '" ++ word ++ lit "', 'start_idx': " ++ repr_int a
           ++ lit ", 'end_idx': " ++ repr_int b ++ lit ", 'type': '" ++ type
           ++ lit "'}")
    with ((lit "{'word': '" ++ word ++ lit "', 'start_idx': ") ++ [] ++ repr_int a
          ++ [] ++ (lit ", 'end_idx': " ++ repr_int b ++ lit ", 'type': '" ++ type
                    ++ lit "'}"))
    by (rewrite <- !app_assoc; reflexivity).
  replace (Z.of_nat (14 + length word) + 12)
    with (len (lit "{'word': '" ++ word ++ lit "', 'start_idx': "))
    by (rewrite !len_app; unfold len; simpl length; lia).
  apply int_field_readable;
    [reflexivity|reflexivity|right; eexists; reflexivity|assumption].
Qed.

Lemma end_idx_value :
  readable b ->
  int_field (entity_repr word a b type)
    (Z.of_nat (29 + length word + length (repr_int a)) + 10) = Ok b.
Proof.
  intros Hb.
  unfold entity_repr.
  replace (lit "{'word': '" ++ word ++ lit "', 'start_idx': " ++ repr_int a
           ++ lit ", 'end_idx': " ++ repr_int b ++ lit ", 'type': '" ++ type
           ++ lit "'}")
    with ((lit "{'word': '" ++ word ++ lit "', 'start_idx': " ++ repr_int a
           ++ lit ", 'end_idx': ") ++ [] ++ repr_int b
          ++ [] ++ (lit ", 'type': '" ++ type ++ lit "'}"))
    by (rewrite <- !app_assoc; reflexivity).
  replace (Z.of_nat (29 + length word + length (repr_int a)) + 10)
    with (len (lit "{'word': '" ++ word ++ lit "', 'start_idx': " ++ repr_int a
               ++ lit ", 'end_idx': "))
    by (rewrite !len_app; unfold len; simpl length; lia).
  apply int_field_readable;
    [reflexivity|reflexivity|right; eexists; reflexivity|assumption].
Qed.

Hypothesis word_free : key_free word.
Hypothesis type_free : key_free type.
Hypothesis a_readable : readable a.
Hypothesis b_readable : readable b.

(** The keys stand at one position each. *)
Lemma at_start_idx_iff (i : Z) :
  0 <= i ->
  at_start_idx (entity_repr word a b type) i = true <-> i = 14 + len word.
Proof.
  intros Hi. rewrite at_start_idx_occ by exact Hi. unfold len. split.
  - intros H. apply (start_idx_unique word a b type word_free type_free) in H.
    lia.
  - intros ->. replace (Z.to_nat _) with (14 + length word)%nat by lia.
    apply start_idx_at.
Qed.

Lemma at_end_idx_iff (i : Z) :
  0 <= i ->
  at_end_idx (entity_repr word a b type) i = true
  <-> i = 29 + len word + len (repr_int a).
Proof.
  intros Hi. rewrite at_end_idx_occ by exact Hi. unfold len. split.
  - intros H. apply (end_idx_unique word a b type word_free type_free) in H.
    lia.
  - intros ->.
    replace (Z.to_nat _) with (29 + length word + length (repr_int a))%nat by lia.
    apply end_idx_at.
Qed.

(** Wherever a key is found in the field its value is readable. *)
Lemma field_good (i : Z) :
  0 <= i ->
  at_start_idx (entity_repr word a b type) i
  && fails (int_field (entity_repr word a b type) (i + 12)) = false /\
  at_end_idx (entity_repr word a b type) i
  && fails (int_field (entity_repr word a b type) (i + 10)) = false.
Proof.
  intros Hi. split.
  - destruct (at_start_idx _ i) eqn:E; [|reflexivity].
    apply at_start_idx_iff in E; [|exact Hi]. subst i.
    pose proof (start_idx_value a_readable) as Hv. unfold len.
    replace (Z.of_nat (length word)) with (Z.of_nat (length word)) by reflexivity.
    replace (14 + Z.of_nat (length word) + 12)
      with (Z.of_nat (14 + length word) + 12) by lia.
    rewrite Hv. reflexivity.
  - destruct (at_end_idx _ i) eqn:E; [|reflexivity].
    apply at_end_idx_iff in E; [|exact Hi]. subst i.
    pose proof (end_idx_value b_readable) as Hv. unfold len.
    replace (29 + Z.of_nat (length word) + Z.of_nat (length (repr_int a)) + 10)
      with (Z.of_nat (29 + length word + length (repr_int a)) + 10) by lia.
    rewrite Hv. reflexivity.
Qed.

End FieldValues.

(** ** Rows written in the format of the data set *)

Lemma in_range (n i : Z) : In i (range n) -> 0 <= i < n.
Proof.
  unfold range. intros H. apply in_map_iff in H as (k & <- & Hk).
  apply in_seq in Hk. lia.
Qed.

Section ReprRow.
Variables (ws : str) (a b : Z) (ts : str) (wo : str) (c d : Z) (to : str).
Hypothesis ws_free : key_free ws.
Hypothesis ts_free : key_free ts.
Hypothesis wo_free : key_free wo.
Hypothesis to_free : key_free to.
Hypothesis a_readable : readable a.
Hypothesis b_readable : readable b.
Hypothesis c_readable : readable c.
Hypothesis d_readable : readable d.
Let x := entity_repr ws a b ts.
Let y := entity_repr wo c d to.

Lemma repr_clean : clean x y = true.
Proof.
  unfold clean. apply forallb_forall. intros i Hi. apply in_range in Hi.
  apply negb_true_iff. unfold bad_at.
  destruct (field_good ws a b ts ws_free ts_free a_readable b_readable i)
    as [H1 H2]; [lia|].
  destruct (field_good wo c d to wo_free to_free c_readable d_readable i)
    as [H3 H4]; [lia|].
  fold x in H1, H2. fold y in H3, H4. rewrite H1, H2, H3, H4. reflexivity.
Qed.

Lemma repr_last_start (s : str) (w : str) (m n : Z) (t : str) (bound : Z) :
  key_free w -> key_free t -> s = entity_repr w m n t ->
  14 + len w < bound ->
  last_found at_start_idx s bound (14 + len w).
Proof.
  intros Hw Ht -> Hb. pose proof (len_nonneg w).
  split; [lia|]. split.
  - apply (at_start_idx_iff w m n t Hw Ht); lia.
  - intros j Hj. destruct (at_start_idx _ j) eqn:E; [|reflexivity].
    apply (at_start_idx_iff w m n t Hw Ht) in E; lia.
Qed.

Lemma repr_last_end (s : str) (w : str) (m n : Z) (t : str) (bound : Z) :
  key_free w -> key_free t -> s = entity_repr w m n t ->
  29 + len w + len (repr_int m) < bound ->
  last_found at_end_idx s bound (29 + len w + len (repr_int m)).
Proof.
  intros Hw Ht -> Hb. pose proof (len_nonneg w). pose proof (len_nonneg (repr_int m)).
  split; [lia|]. split.
  - apply (at_end_idx_iff w m n t Hw Ht); lia.
  - intros j Hj. destruct (at_end_idx _ j) eqn:E; [|reflexivity].
    apply (at_end_idx_iff w m n t Hw Ht) in E; lia.
Qed.

Lemma repr_scan (v : locals) :
  29 + len wo + len (repr_int c) < len x ->
  scan x y v = Ok {| sub_start := Some a; sub_end := Some b;
                     obj_start := Some c; obj_end := Some d |}.
Proof.
  intros Hb. rewrite (scan_clean_scanned x y v repr_clean).
  pose proof (len_entity_repr ws a b ts) as Hx. fold x in Hx.
  pose proof (len_nonneg ws). pose proof (len_nonneg ts).
  pose proof (len_nonneg wo). pose proof (len_nonneg (repr_int a)).
  pose proof (len_nonneg (repr_int b)). pose proof (len_nonneg (repr_int c)).
  rewrite (scanned_last_found at_start_idx x _ (len x) (14 + len ws))
    by (apply (repr_last_start x ws a b ts); auto; lia).
  rewrite (scanned_last_found at_end_idx x _ (len x)
             (29 + len ws + len (repr_int a)))
    by (apply (repr_last_end x ws a b ts); auto; lia).
  rewrite (scanned_last_found at_start_idx y _ (len x) (14 + len wo))
    by (apply (repr_last_start y wo c d to); auto; lia).
  rewrite (scanned_last_found at_end_idx y _ (len x)
             (29 + len wo + len (repr_int c)))
    by (apply (repr_last_end y wo c d to); auto; lia).
  pose proof (start_idx_value ws a b ts a_readable) as V1.
  pose proof (end_idx_value ws a b ts b_readable) as V2.
  pose proof (start_idx_value wo c d to c_readable) as V3.
  pose proof (end_idx_value wo c d to d_readable) as V4.
  fold x in V1, V2. fold y in V3, V4. unfold len in *.
  replace (14 + Z.of_nat (length ws) + 12)
    with (Z.of_nat (14 + length ws) + 12) by lia.
  replace (29 + Z.of_nat (length ws) + Z.of_nat (length (repr_int a)) + 10)
    with (Z.of_nat (29 + length ws + length (repr_int a)) + 10) by lia.
  replace (14 + Z.of_nat (length wo) + 12)
    with (Z.of_nat (14 + length wo) + 12) by lia.
  replace (29 + Z.of_nat (length wo) + Z.of_nat (length (repr_int c)) + 10)
    with (Z.of_nat (29 + length wo + length (repr_int c)) + 10) by lia.
  rewrite V1, V2, V3, V4. reflexivity.
Qed.

End ReprRow.

Lemma entity_type_repr (w : str) (m n : Z) (t : str) :
  ~ In ":"%char t -> ~ In "'"%char t ->
  entity_type (entity_repr w m n t) = Ok t.
Proof.
  intros Hc Hq. unfold entity_repr.
  replace (lit "{'word': '" ++ w ++ lit "', 'start_idx': " ++ repr_int m
           ++ lit ", 'end_idx': " ++ repr_int n ++ lit ", 'type': '" ++ t
           ++ lit "'}")
    with ("{"%char :: ((lit "'word': '" ++ w ++ lit "', 'start_idx': " ++ repr_int m
                        ++ lit ", 'end_idx': " ++ repr_int n ++ lit ", 'type'")
                       ++ ":"%char :: lit " " ++ "'"%char :: t ++ "'"%char :: [])
          ++ ["}"%char])
    by (do 8 (cbn [app lit list_ascii_of_string]; rewrite <- ?app_assoc);
        reflexivity).
  apply entity_type_tag.
  - rewrite app_nil_r. simpl. intros [?|?]; [discriminate|tauto].
  - rewrite app_nil_r. simpl. intros [?|?]; [discriminate|tauto].
Qed.

Lemma row_body_written (r : raw_row) (v : locals) (a b c d : Z) (ts to : str) :
  written r a b c d ts to ->
  row_body r v
  = Ok ({| sub_start := Some a; sub_end := Some b;
           obj_start := Some c; obj_end := Some d |},
        annotation r a b c d ts to).
Proof.
  intros (ws & wo & Hx & Hy & Hws & Hwo & (Hts & Hts1 & Hts2)
          & (Hto & Hto1 & Hto2) & (Ha & Hb' & Hc & Hd) & Hb).
  apply row_body_scanned; try reflexivity.
  - rewrite Hx. apply entity_type_repr; assumption.
  - rewrite Hy. apply entity_type_repr; assumption.
  - rewrite Hx in *. rewrite Hy. apply repr_scan; assumption.
Qed.

(** X18. What the data set writes, [load_data] reads: for a table whose rows
    are in the format of the data set (words and types without the text of a
    key, types without colon and quote, offsets of at most 4300 digits, the
    keys of the object field at positions below the length of the subject
    field), [load_data] returns, row for row, the annotation made with the
    offsets and types written in the row; and it does so from whatever the
    offset variables hold. *)
Theorem load_data_reads_written (data : list raw_row) (ann : list df_row) :
  Forall2 (fun r o => exists a b c d ts to,
             written r a b c d ts to /\ o = annotation r a b c d ts to)
    data ann ->
  load_data data = Ok ann /\ forall v, load_from v data = Ok ann.
Proof.
  intros HF.
  assert (Hall : forall v, load_from v data = Ok ann).
  { induction HF as [|r o data ann (a & b & c & d & ts & to & Hw & ->) _ IH];
      intros v; [reflexivity|].
    rewrite load_from_cons, (row_body_written r v a b c d ts to Hw).
    cbn [bind fst snd]. rewrite IH. reflexivity. }
  split; [apply Hall|exact Hall].
Qed.

Lemma kim_written : written kim 0 2 13 16 (lit "PER") (lit "ORG").
Proof.
  exists (lit "Kim"), (lit "Acme").
  repeat split; try reflexivity; try (simpl; intuition discriminate);
    vm_compute; discriminate.
Qed.

Lemma load_data_reads_written_witness :
  load_data [kim; kim] = Ok [kim_row; kim_row]
  /\ forall v, load_from v [kim; kim] = Ok [kim_row; kim_row].
Proof.
  apply (load_data_reads_written [kim; kim] [kim_row; kim_row]).
  repeat constructor; exists 0, 2, 13, 16, (lit "PER"), (lit "ORG");
    (split; [exact kim_written|reflexivity]).
Defined.

(** ** The spans written in a row, and the markers *)

Section LastPiece.

(** The last piece of a text that ends with a character other than the
    separator ends with that character. *)
Lemma split_last (c q : ascii) (s : str) :
  q <> c -> exists l h, split c (s ++ [q]) = l ++ [h ++ [q]].
Proof.
  intros Hq. induction s as [|a s (l & h & IH)]; simpl.
  - destruct (Ascii.eqb_spec q c); [congruence|]. exists [], []. reflexivity.
  - destruct (Ascii.eqb a c).
    + exists ([] :: l), h. rewrite IH. reflexivity.
    + rewrite IH. destruct l as [|l0 l]; simpl.
      * exists [], (a :: h). reflexivity.
      * exists ((a :: l0) :: l), h. reflexivity.
Qed.

Lemma index_before_last {A} (l : list A) (a b : A) :
  index (l ++ [a; b]) (-2) = Ok a.
Proof.
  unfold index, len. rewrite length_app. simpl.
  destruct (Z.ltb_spec (-2 + Z.of_nat (length l + 2)) 0); [lia|].
  replace (Z.to_nat _) with (length l) by lia.
  rewrite nth_error_is_lookup, lookup_app_r, Nat.sub_diag by lia. reflexivity.
Qed.

(** The type expression raises nothing on a field that ends with a quote
    before its closing character. *)
Lemma entity_type_quoted (c0 c1 : ascii) (body : str) :
  exists T, entity_type (c0 :: (body ++ ["'"%char]) ++ [c1]) = Ok T.
Proof.
  unfold entity_type. rewrite sub_ends.
  destruct (split_last ":" "'" body) as (l & h & ->); [discriminate|].
  rewrite index_last. cbn [bind]. rewrite split_app.
  destruct (split_cons "'" h) as (h0 & t0 & ->).
  destruct (exists_last (l := h0 :: t0)) as (l' & x & ->); [discriminate|].
  change (split "'" []) with [@nil ascii]. rewrite <- app_assoc.
  exists x. apply index_before_last.
Qed.

End LastPiece.

Lemma entity_type_total (w : str) (m n : Z) (t : str) :
  exists T, entity_type (entity_repr w m n t) = Ok T.
Proof.
  unfold entity_repr.
  replace (lit "{'word': '" ++ w ++ lit "', 'start_idx': " ++ repr_int m
           ++ lit ", 'end_idx': " ++ repr_int n ++ lit ", 'type': '" ++ t
           ++ lit "'}")
    with ("{"%char :: ((lit "'word': '" ++ w ++ lit "', 'start_idx': " ++ repr_int m
                        ++ lit ", 'end_idx': " ++ repr_int n ++ lit ", 'type': '"
                        ++ t) ++ ["'"%char])
          ++ ["}"%char])
    by (do 8 (cbn [app lit list_ascii_of_string]; rewrite <- ?app_assoc);
        reflexivity).
  apply entity_type_quoted.
Qed.

(** A row that carries its spans is read with these spans, whatever the
    offset variables hold when the row is reached. *)
Lemma row_body_spans_written (r : raw_row) (v : locals) (a b c d : Z) :
  spans_written r a b c d ->
  exists ts to,
    row_body r v
    = Ok ({| sub_start := Some a; sub_end := Some b;
             obj_start := Some c; obj_end := Some d |},
          annotation r a b c d ts to).
Proof.
  intros (ws & ts & wo & to & Hx & Hy & Hws & Hts & Hwo & Hto
          & (Ha & Hb' & Hc & Hd) & Hb).
  destruct (entity_type_total ws a b ts) as (Ts & HTs).
  destruct (entity_type_total wo c d to) as (To & HTo).
  exists Ts, To. apply row_body_scanned; try reflexivity.
  - rewrite Hx. exact HTs.
  - rewrite Hy. exact HTo.
  - rewrite Hx in *. rewrite Hy. apply repr_scan; assumption.
Qed.

(** The row of the data frame at the position of a row of the table. *)
Lemma load_data_at (pre : list raw_row) (r : raw_row) (post : list raw_row)
    (out : list df_row) :
  load_data (pre ++ r :: post) = Ok out ->
  exists v v' o, row_body r v = Ok (v', o) /\ out !! length pre = Some o.
Proof.
  unfold load_data. rewrite load_from_app.
  destruct (for_each append_row pre (unbound, [])) as [[v1 df1]|e] eqn:E;
    [|discriminate].
  cbn [bind fst snd]. rewrite load_from_cons.
  destruct (row_body r v1) as [[v' o]|e] eqn:Er; [|discriminate].
  cbn [bind fst snd].
  destruct (load_from v' post) as [os|e]; [|discriminate].
  cbn [bind]. intros [= <-]. exists v1, v', o. split; [exact Er|].
  assert (Hl : load_from unbound pre = Ok df1)
    by (unfold load_from; rewrite E; reflexivity).
  apply load_from_annotates, Forall2_length in Hl.
  apply list_lookup_middle. exact Hl.
Qed.

Lemma spans_written_wraps (r : raw_row) (a b c d : Z) (v : locals) :
  spans_written r a b c d ->
  valid_span (sentence r) (a, b) -> valid_span (sentence r) (c, d) ->
  disjoint (a, b) (c, d) ->
  exists v' o, row_body r v = Ok (v', o) /\ wraps r a b c d o.
Proof.
  intros Hw Hs Ho Hd.
  destruct (row_body_spans_written r v a b c d Hw) as (ts & to & ->).
  eexists _, _. split; [reflexivity|].
  unfold wraps, annotation. cbn [df_subject_idx df_object_idx df_subject_entity
                                  df_object_entity df_sentence].
  repeat (split; [reflexivity|]).
  exact (mark_inserted (sentence r) a b c d Hs Ho Hd).
Qed.

Lemma spans_written_strips_back (r : raw_row) (a b c d : Z) (v : locals) :
  spans_written r a b c d ->
  valid_span (sentence r) (a, b) -> valid_span (sentence r) (c, d) ->
  disjoint (a, b) (c, d) -> marker_free (sentence r) ->
  exists v' o, row_body r v = Ok (v', o) /\ strips_back r o.
Proof.
  intros Hw Hs Ho Hd Hfree.
  destruct (row_body_spans_written r v a b c d Hw) as (ts & to & ->).
  eexists _, _. split; [reflexivity|].
  unfold strips_back, annotation. cbn [df_sentence].
  assert (Hall : forall ks, (forall k, In k ks) ->
                   strip_markers_in ks (mark (sentence r) (a, b) (c, d))
                   = sentence r)
    by (intros ks Hks; apply strip_mark; assumption).
  split; [|exact Hall]. apply Hall. intros []; simpl; tauto.
Qed.

Lemma kim_spans_written : spans_written kim 0 2 13 16.
Proof.
  exists (lit "Kim"), (lit "PER"), (lit "Acme"), (lit "ORG").
  repeat split; try reflexivity; vm_compute; discriminate.
Qed.

(** C1, as stated, fails on rows whose spans are disjoint and lie within the
    sentence.  The row [bo] carries the spans 0..1 and 10..62 in its fields;
    after the row [kim] it is loaded with the object offsets 13 and 16 of that
    row, its object markers stand around [erna], and no [[OBJ]] stands at
    10 + 11.  The row [keyword] carries the spans 0..6 and 18..21, its subject
    being the word [end_idx]; it stops [load_data] with [ValueError], also as
    the only row of a table. *)
Lemma markers_not_at_written_spans :
  ((exists ws wo, subject_entity bo = entity_repr ws 0 1 (lit "PER")
                  /\ object_entity bo = entity_repr wo 10 62 (lit "ORG")) /\
   valid_span (sentence bo) (0, 1) /\ valid_span (sentence bo) (10, 62) /\
   disjoint (0, 1) (10, 62) /\
   load_data [kim; bo] = Ok [kim_row; bo_row] /\
   df_object_idx bo_row = (13, 16) /\
   df_object_entity bo_row = lit "erna" /\
   sub (sentence bo) 10 (62 + 1)
   = lit "International Business Machines Corporation of Armonk" /\
   forall t1 t2,
     ~ inserted (sentence bo) (df_sentence bo_row)
         (lit "[SUB]") (lit "[/SUB]") (lit "[OBJ]") (lit "[/OBJ]")
         (0, 1) (10, 62) t1 t2) /\
  ((exists ws wo, subject_entity keyword = entity_repr ws 0 6 (lit "POH")
                  /\ object_entity keyword = entity_repr wo 18 21 (lit "ORG")) /\
   valid_span (sentence keyword) (0, 6) /\ valid_span (sentence keyword) (18, 21) /\
   disjoint (0, 6) (18, 21) /\
   load_data [keyword] = Raise ValueError /\
   load_data [kim; keyword] = Raise ValueError).
Proof.
  split.
  - split.
    { exists (lit "Bo"),
        (lit "International Business Machines Corporation of Armonk").
      split; reflexivity. }
    split; [unfold valid_span, len; simpl; lia|].
    split; [unfold valid_span, len; simpl; lia|].
    split; [unfold disjoint; simpl; lia|].
    split; [vm_compute; reflexivity|].
    split; [reflexivity|]. split; [reflexivity|].
    split; [vm_compute; reflexivity|].
    intros t1 t2 (u & m & w & _ & Hm & _ & _ & Hl & _).
    cbn [fst snd] in Hl.
    assert (H : take 5 (drop 21 (df_sentence bo_row)) = lit "[OBJ]").
    { rewrite Hm.
      replace (u ++ lit "[SUB]" ++ t1 ++ lit "[/SUB]" ++ m ++ lit "[OBJ]" ++ t2
               ++ lit "[/OBJ]" ++ w)
        with ((u ++ lit "[SUB]" ++ t1 ++ lit "[/SUB]" ++ m)
              ++ lit "[OBJ]" ++ t2 ++ lit "[/OBJ]" ++ w)
        by (rewrite <- !app_assoc; reflexivity).
      rewrite drop_app_length' by (unfold len in Hl; lia).
      apply (take_app_length (lit "[OBJ]")). }
    vm_compute in H. discriminate.
  - split.
    { exists (lit "end_idx"), (lit "Acme"). split; reflexivity. }
    split; [unfold valid_span, len; simpl; lia|].
    split; [unfold valid_span, len; simpl; lia|].
    split; [unfold disjoint; simpl; lia|].
    split; vm_compute; reflexivity.
Qed.

(** C1, amended. For a row that carries its spans in the format of the data
    set (words and types without the text of a key, the keys of the object
    field at positions that the scan visits, offsets that [int] converts),
    with spans that are disjoint and lie within the sentence: whatever the
    rows before it left, [load_data] reads these spans, puts the markers of
    the span that starts first at that span's own offsets and the markers of
    the other span at its start plus 11 and its end plus 1 plus 11, and the
    text between [[SUB]] and [[/SUB]] is the subject text of the original
    sentence, the text between [[OBJ]] and [[/OBJ]] the object text.  In a
    table that [load_data] accepts the row of the data frame at the position
    of such a row is of this kind. *)
Theorem markers_wrap_entities (r : raw_row) (a b c d : Z) :
  spans_written r a b c d ->
  valid_span (sentence r) (a, b) -> valid_span (sentence r) (c, d) ->
  disjoint (a, b) (c, d) ->
  (forall v, exists v' o, row_body r v = Ok (v', o) /\ wraps r a b c d o) /\
  (exists o, load_data [r] = Ok [o] /\ wraps r a b c d o) /\
  (forall pre post out,
     load_data (pre ++ r :: post) = Ok out ->
     exists o, out !! length pre = Some o /\ wraps r a b c d o).
Proof.
  intros Hw Hs Ho Hd.
  pose proof (fun v => spans_written_wraps r a b c d v Hw Hs Ho Hd) as Hrow.
  split; [exact Hrow|]. split.
  - destruct (Hrow unbound) as (v' & o & Hr & Ho'). exists o.
    split; [|exact Ho']. unfold load_data. rewrite load_from_cons, Hr.
    reflexivity.
  - intros pre post out Hout.
    destruct (load_data_at pre r post out Hout) as (v & v' & o & Hr & Hlook).
    destruct (Hrow v) as (v'' & o' & Hr' & Ho').
    rewrite Hr in Hr'. injection Hr' as _ <-. eauto.
Qed.

Lemma markers_wrap_entities_witness :
  (forall v, exists v' o, row_body kim v = Ok (v', o) /\ wraps kim 0 2 13 16 o) /\
  (exists o, load_data [kim] = Ok [o] /\ wraps kim 0 2 13 16 o) /\
  (forall pre post out,
     load_data (pre ++ kim :: post) = Ok out ->
     exists o, out !! length pre = Some o /\ wraps kim 0 2 13 16 o).
Proof.
  apply (markers_wrap_entities kim 0 2 13 16).
  - exact kim_spans_written.
  - unfold valid_span, len. simpl. lia.
  - unfold valid_span, len. simpl. lia.
  - unfold disjoint. simpl. lia.
Defined.

(** C2, amended. For a row that carries its spans in the format of the data
    set (words and types without the text of a key, the keys of the object
    field at positions that the scan visits, offsets that [int] converts),
    with spans that are disjoint and lie within the sentence, and whose
    sentence holds none of the four marker strings: whatever the rows before
    it left, deleting the four marker strings from the marked sentence that
    [load_data] produces, in whatever order, gives the original sentence
    back. *)
Theorem strip_markers_roundtrip (r : raw_row) (a b c d : Z) :
  spans_written r a b c d ->
  valid_span (sentence r) (a, b) -> valid_span (sentence r) (c, d) ->
  disjoint (a, b) (c, d) ->
  marker_free (sentence r) ->
  (forall v, exists v' o, row_body r v = Ok (v', o) /\ strips_back r o) /\
  (exists o, load_data [r] = Ok [o] /\ strips_back r o) /\
  (forall pre post out,
     load_data (pre ++ r :: post) = Ok out ->
     exists o, out !! length pre = Some o /\ strips_back r o).
Proof.
  intros Hw Hs Ho Hd Hfree.
  pose proof (fun v => spans_written_strips_back r a b c d v Hw Hs Ho Hd Hfree)
    as Hrow.
  split; [exact Hrow|]. split.
  - destruct (Hrow unbound) as (v' & o & Hr & Ho'). exists o.
    split; [|exact Ho']. unfold load_data. rewrite load_from_cons, Hr.
    reflexivity.
  - intros pre post out Hout.
    destruct (load_data_at pre r post out Hout) as (v & v' & o & Hr & Hlook).
    destruct (Hrow v) as (v'' & o' & Hr' & Ho').
    rewrite Hr in Hr'. injection Hr' as _ <-. eauto.
Qed.

Lemma strip_markers_roundtrip_witness :
  (forall v, exists v' o, row_body kim v = Ok (v', o) /\ strips_back kim o) /\
  (exists o, load_data [kim] = Ok [o] /\ strips_back kim o) /\
  (forall pre post out,
     load_data (pre ++ kim :: post) = Ok out ->
     exists o, out !! length pre = Some o /\ strips_back kim o).
Proof.
  apply (strip_markers_roundtrip kim 0 2 13 16).
  - exact kim_spans_written.
  - unfold valid_span, len. simpl. lia.
  - unfold valid_span, len. simpl. lia.
  - unfold disjoint. simpl. lia.
  - intros []; vm_compute; reflexivity.
Defined.

(** ** The one-hot labels of [klue_re_auprc] *)

Lemma nth_error_map_seq {B} (f : nat -> B) (n k : nat) :
  (k < n)%nat -> nth_error (map f (seq 0 n)) k = Some (f k).
Proof.
  intros Hk. rewrite nth_error_map, nth_error_seq.
  destruct (Nat.ltb_spec k n); [reflexivity|lia].
Qed.

Lemma index_eye (l : Z) :
  -30 <= l < 30 ->
  index (eye 30) l
  = Ok (map (fun j => if (Z.to_nat (l mod 30) =? j)%nat then 1 else 0) (seq 0 30)).
Proof.
  intros Hl. unfold index, eye, len. rewrite length_map, length_seq.
  change (Z.of_nat 30) with 30.
  assert (Hm : (if l <? 0 then l + 30 else l) = l mod 30).
  { destruct (Z.ltb_spec l 0).
    - apply (Z.mod_unique l 30 (-1)); lia.
    - symmetry. apply Z.mod_small. lia. }
  rewrite Hm. pose proof (Z.mod_pos_bound l 30 ltac:(lia)) as Hb.
  rewrite (proj2 (Z.ltb_ge (l mod 30) 0)) by lia.
  rewrite nth_error_map_seq by lia. reflexivity.
Qed.

Lemma index_eye_outside (l : Z) :
  ~ (-30 <= l < 30) -> index (eye 30) l = Raise IndexError.
Proof.
  intros Hl. pose proof (index_in_range (eye 30) l) as H.
  change (len (eye 30)) with 30 in H.
  destruct (index (eye 30) l) as [row|e] eqn:E.
  - exfalso. apply Hl, H. reflexivity.
  - f_equal. exact (index_raises _ _ _ E).
Qed.

Lemma bind_raise {A B} (r : result A) (k : A -> B) (e : exn) :
  (x <- r ;; Ok (k x)) = Raise e <-> r = Raise e.
Proof. destruct r; simpl; split; congruence. Qed.

(** X19. The one-hot targets of [klue_re_auprc]: for a class [c] below 30 the
    targets are computed exactly when every label lies between -30 and 29;
    the target of a row is then 1 when its label is [c], counted from the end
    when negative, and 0 otherwise.  A label outside makes the metric stop
    with [IndexError]. *)
Theorem targets_c_one_hot (labels : list Z) (c : nat) :
  (c < 30)%nat ->
  (Forall (fun l => -30 <= l < 30) labels ->
   targets_c labels c
   = Ok (map (fun l => if l mod 30 =? Z.of_nat c then 1 else 0) labels)) /\
  (~ Forall (fun l => -30 <= l < 30) labels ->
   targets_c labels c = Raise IndexError).
Proof.
  intros Hc. unfold targets_c. induction labels as [|l labels [IH1 IH2]].
  - split; [reflexivity|]. intros H. exfalso. apply H. constructor.
  - rewrite iloc_cons. split.
    + intros HF. apply Forall_cons in HF as [Hl HF]. rewrite index_eye by exact Hl.
      cbn [bind]. specialize (IH1 HF).
      destruct (iloc (eye 30) labels) as [rows|]; [|discriminate].
      cbn [bind] in *. injection IH1 as IH1. cbn [map]. rewrite IH1.
      f_equal. f_equal.
      pose proof (Z.mod_pos_bound l 30 ltac:(lia)) as Hb.
      rewrite (nth_indep _ 0 ((fun j => if (Z.to_nat (l mod 30) =? j)%nat
                                        then 1 else 0) 0%nat))
        by (rewrite length_map, length_seq; exact Hc).
      rewrite (map_nth (fun j => if (Z.to_nat (l mod 30) =? j)%nat then 1 else 0)),
        seq_nth by exact Hc.
      simpl Nat.add.
      destruct (Nat.eqb_spec (Z.to_nat (l mod 30)) c);
        destruct (Z.eqb_spec (l mod 30) (Z.of_nat c)); try reflexivity; lia.
    + intros HF.
      destruct (Z_le_dec (-30) l) as [H1|H1];
        [destruct (Z_lt_dec l 30) as [H2|H2]|].
      * rewrite index_eye by lia. cbn [bind].
        rewrite (fun H => proj1 (bind_raise _ _ _) (IH2 H));
          [reflexivity|].
        intros H. apply HF. constructor; [lia|exact H].
      * rewrite index_eye_outside by lia. reflexivity.
      * rewrite index_eye_outside by lia. reflexivity.
Qed.

Lemma targets_c_one_hot_witness :
  targets_c [0; 29; -1; 6] 29 = Ok [0; 1; 1; 0]
  /\ targets_c [6; 30] 29 = Raise IndexError.
Proof.
  split.
  - apply (proj1 (targets_c_one_hot [0; 29; -1; 6] 29 ltac:(lia))).
    repeat constructor; lia.
  - apply (proj2 (targets_c_one_hot [6; 30] 29 ltac:(lia))).
    intros H. apply Forall_cons in H as [_ H]. apply Forall_cons in H as [H _].
    lia.
Defined.
